(** * isaks-slack-bot: the chunker and the request pipelines of [src/app.js]

    A shallow embedding of the retrieval-augmented Q&A service.  JavaScript
    strings are sequences of UTF-16 code units, indices are integers ([Z],
    so that [lastIndexOf] can answer [-1] as it does in the source), the
    [while] loop of [chunkText] is a step function iterated under fuel, and
    the asynchronous handlers are written in a state-and-exception monad
    over a world that holds the two database tables and the trace of calls
    made to the outside. *)

From Stdlib Require Import ZArith NArith List Lia Bool String Ascii QArith.
Import ListNotations.

#[local] Open Scope Z_scope.

(** ** JavaScript strings *)

Module JS.

Definition code_unit := N.
Definition jsstring := list code_unit.

(** A literal of the source, read as code units. *)
Definition lit (s : string) : jsstring :=
  map N_of_ascii (list_ascii_of_string s).

(** [s.length] *)
Definition length (s : jsstring) : Z := Z.of_nat (List.length s).

(** [s.slice(start, end)]: negative indices count from the end, both
    indices are clamped to the string, and an empty span gives [''] . *)
Definition slice (s : jsstring) (start end_ : Z) : jsstring :=
  let len := length s in
  let from := if start <? 0 then Z.max (len + start) 0 else Z.min start len in
  let to := if end_ <? 0 then Z.max (len + end_) 0 else Z.min end_ len in
  let span := Z.max (to - from) 0 in
  firstn (Z.to_nat span) (skipn (Z.to_nat from) s).

(** [s.lastIndexOf(c)] for a one-character search string: the index of
    the last occurrence, [-1] when there is none. *)
Fixpoint lastIndexOf (s : jsstring) (c : code_unit) : Z :=
  match s with
  | [] => -1
  | x :: r =>
      let i := lastIndexOf r c in
      if 0 <=? i then i + 1 else if N.eqb x c then 0 else -1
  end.

(** [Math.max(a, b, c)] *)
Definition Math_max3 (a b c : Z) : Z := Z.max (Z.max a b) c.

(** White space and line terminators of ECMAScript, the characters that
    [trim] removes. *)
Definition isWhiteSpace (c : code_unit) : bool :=
  let c := Z.of_N c in
  (c =? 9) || (c =? 10) || (c =? 11) || (c =? 12) || (c =? 13) ||
  (c =? 32) || (c =? 160) || (c =? 5760) ||
  ((8192 <=? c) && (c <=? 8202)) ||
  (c =? 8232) || (c =? 8233) || (c =? 8239) || (c =? 8287) ||
  (c =? 12288) || (c =? 65279).

Fixpoint trimStart (s : jsstring) : jsstring :=
  match s with
  | [] => []
  | c :: r => if isWhiteSpace c then trimStart r else s
  end.

Definition trimEnd (s : jsstring) : jsstring := rev (trimStart (rev s)).

(** [s.trim()] *)
Definition trim (s : jsstring) : jsstring := trimEnd (trimStart s).

(** [s.includes(sub)], as a proposition. *)
Definition includes (s sub : jsstring) : Prop :=
  exists before after, s = before ++ sub ++ after.

(** Truthiness of a string: only [''] is falsy. *)
Definition truthy (s : jsstring) : bool :=
  match s with [] => false | _ :: _ => true end.

End JS.

Import JS.

(** ** The chunker: [chunkText] *)

Module Chunker.

Definition chunkSize : Z := 1000.
Definition overlap : Z := 200.

Definition period : code_unit := 46%N.
Definition question_mark : code_unit := 63%N.
Definition exclamation : code_unit := 33%N.

(** The two variables the loop assigns. *)
Record loop_state := LoopState {
  startIndex : Z;
  chunks : list jsstring
}.

Definition initial : loop_state := {| startIndex := 0; chunks := [] |}.

(** [startIndex < text.length] *)
Definition loop_cond (text : jsstring) (st : loop_state) : bool :=
  startIndex st <? length text.

(** The sentence break of a window: [lastBreak]. *)
Definition lastBreak (chunk : jsstring) : Z :=
  let lastPeriod := lastIndexOf chunk period in
  let lastQuestion := lastIndexOf chunk question_mark in
  let lastExclamation := lastIndexOf chunk exclamation in
  Math_max3 lastPeriod lastQuestion lastExclamation.

(** One pass through the body of the [while]: the raw window, the
    sentence break when the window does not reach the end of the text,
    the push and the new [startIndex]. *)
Definition loop_body (text : jsstring) (st : loop_state) : loop_state :=
  let endIndex := startIndex st + chunkSize in
  let chunk := slice text (startIndex st) endIndex in
  let '(endIndex, chunk) :=
    if endIndex <? length text then
      let lastBreak := lastBreak chunk in
      if negb (lastBreak =? -1) && (chunkSize - overlap <? lastBreak) then
        let endIndex := startIndex st + lastBreak + 1 in
        (endIndex, slice text (startIndex st) endIndex)
      else (endIndex, chunk)
    else (endIndex, chunk) in
  {| startIndex := endIndex - overlap;
     chunks := chunks st ++ [trim chunk] |}.

(** The [while] loop under fuel: [None] when the fuel runs out before the
    condition turns false. *)
Fixpoint while_loop (fuel : nat) (text : jsstring) (st : loop_state)
  : option loop_state :=
  if loop_cond text st then
    match fuel with
    | O => None
    | S fuel' => while_loop fuel' text (loop_body text st)
    end
  else Some st.

(** [chunkText(text)].  One unit of fuel per character is enough
    ([while_loop_exits] below), so the default is never taken. *)
Definition chunkText (text : jsstring) : list jsstring :=
  match while_loop (List.length text) text initial with
  | Some st => chunks st
  | None => []
  end.

(** *** Vocabulary for the statements about the chunker *)

(** The code unit at index [i], if there is one. *)
Definition char_at (s : jsstring) (i : Z) : option code_unit :=
  if i <? 0 then None else nth_error s (Z.to_nat i).

(** One of ['.'], ['?'], ['!']. *)
Definition sentence_end (c : code_unit) : bool :=
  N.eqb c period || N.eqb c question_mark || N.eqb c exclamation.

(** [i] is where the last sentence terminator of [w] stands. *)
Definition last_sentence_end (w : jsstring) (i : Z) : Prop :=
  (exists c, char_at w i = Some c /\ sentence_end c = true) /\
  (forall j c, i < j -> char_at w j = Some c -> sentence_end c = false).

(** [w] holds no sentence terminator at all. *)
Definition no_sentence_end (w : jsstring) : Prop :=
  forall j c, char_at w j = Some c -> sentence_end c = false.

(** The raw window that starts at [start]. *)
Definition window (text : jsstring) (start : Z) : jsstring :=
  slice text start (start + chunkSize).

(** The window cut immediately after its index [i]. *)
Definition cut_after (w : jsstring) (i : Z) : jsstring :=
  firstn (Z.to_nat (i + 1)) w.

(** Every chunk pushed so far fits the chunk size, and the window start has
    not gone negative. *)
Definition bounded (st : loop_state) : Prop :=
  0 <= startIndex st /\ Forall (fun c => length c <= chunkSize) (chunks st).

End Chunker.

(** ** The request pipelines *)

Module Pipeline.

Import Chunker.

(** Numbers that come from the services (vector components, similarity
    scores) are only handed through, never computed on. *)
Definition number := Q.
Definition embedding := list number.

(** A JavaScript [Error]: the handlers only ever read its [message]. *)
Record Error := mkError { message : jsstring }.

(** [req.file], as multer fills it. *)
Record File := mkFile {
  fieldname : jsstring;
  originalname : jsstring;
  filename : jsstring;
  path : jsstring
}.

(** Rows of the tables [documents] and [chunks]. *)
Record document_row := mkDocument {
  id : jsstring;
  doc_filename : jsstring;
  original_name : jsstring;
  upload_date : jsstring
}.

Record chunk_row := mkChunk {
  document_id : jsstring;
  chunk_index : Z;
  content : jsstring;
  chunk_embedding : option embedding   (* [embeddings[index]] may be undefined *)
}.

(** A row of the stored procedure [match_chunks]. *)
Record match_row := mkMatch {
  match_id : jsstring;
  match_content : jsstring;
  match_document_id : jsstring;
  match_chunk_index : Z;
  similarity : number
}.

(** The argument of [openai.chat.completions.create]. *)
Record chat_message := mkMessage { role : jsstring; message_content : jsstring }.

Record completion_request := mkCompletion {
  model : jsstring;
  messages : list chat_message;
  temperature : Q;      (* the decimal literal of the source *)
  max_tokens : Z
}.

(** What a handler does to the outside, in order. *)
Inductive event :=
| ReadFile (p : jsstring)
| ReadFileUtf8 (p : jsstring)
| PdfParse
| MammothExtractRawText
| Unlink (p : jsstring)
| EmbeddingsCreate (input : jsstring) (model : jsstring)
| ChatCompletionsCreate (request : completion_request)
| InsertDocument (filename original_name upload_date : jsstring)
| InsertChunks (rows : list chunk_row)
| RpcMatchChunks (query_embedding : embedding) (match_count : Z)
| ConsoleError (msg : jsstring).

Record World := mkWorld {
  documents : list document_row;
  chunks_table : list chunk_row;
  trace : list event
}.

Definition log (e : event) (w : World) : World :=
  {| documents := documents w; chunks_table := chunks_table w;
     trace := trace w ++ [e] |}.

(** The collaborators the source reaches through [fs], [path], [pdf-parse],
    [mammoth], [openai] and [supabase]: each answers from the world as it
    is when the call is made.  A value on the left is the error the call
    rejects with (or, for supabase, the [error] of the result). *)
Record Services := mkServices {
  extname_toLowerCase : jsstring -> jsstring;
  fs_readFile : World -> jsstring -> Error + list N;
  fs_readFile_utf8 : World -> jsstring -> Error + jsstring;
  pdf_text : World -> list N -> Error + jsstring;
  docx_value : World -> list N -> Error + jsstring;
  fs_unlink : World -> jsstring -> option Error;
  date_toISOString : World -> jsstring;
  embeddings_create : World -> jsstring -> Error + embedding;
  chat_completions_create : World -> completion_request -> Error + jsstring;
  documents_insert : World -> jsstring -> jsstring -> jsstring -> Error + document_row;
  chunks_insert : World -> list chunk_row -> option Error;
  rpc_match_chunks : World -> embedding -> Z -> Error + option (list match_row)
}.

(** *** The monad of an [async] function: state and exceptions *)

Definition M (A : Type) : Type := World -> World * (Error + A).

Definition ret {A} (a : A) : M A := fun w => (w, inr a).

Definition bind {A B} (m : M A) (k : A -> M B) : M B :=
  fun w => match m w with
           | (w', inr a) => k a w'
           | (w', inl e) => (w', inl e)
           end.

Definition throw {A} (e : Error) : M A := fun w => (w, inl e).

(** [try { m } catch (error) { h error }] *)
Definition try_catch {A} (m : M A) (h : Error -> M A) : M A :=
  fun w => match m w with
           | (w', inr a) => (w', inr a)
           | (w', inl e) => h e w'
           end.

(** An awaited call that may reject. *)
Definition await {A} (e : event) (answer : World -> Error + A) : M A :=
  fun w => (log e w, answer w).

(** A call that always returns. *)
Definition perform {A} (e : event) (answer : World -> A) : M A :=
  fun w => (log e w, inr (answer w)).

Declare Scope async_scope.
Delimit Scope async_scope with async.
Notation "x <- m ;; k" := (bind m (fun x => k))
  (at level 100, m at next level, right associativity) : async_scope.
Notation "m ;;; k" := (bind m (fun _ => k))
  (at level 100, right associativity) : async_scope.
#[local] Open Scope async_scope.

(** *** JSON bodies and responses *)

#[local] Unset Elimination Schemes.
Inductive json :=
| JString (s : jsstring)
| JNumber (n : number)
| JInt (z : Z)
| JArray (l : list json)
| JObject (fields : list (string * json)).

#[local] Set Elimination Schemes.

Fixpoint field (name : string) (fields : list (string * json)) : option json :=
  match fields with
  | [] => None
  | (k, v) :: r => if String.eqb k name then Some v else field name r
  end.

(** One property [k: v] of an object literal. *)
Definition prop (k : string) (v : json) : string * json := (k, v).

Record Response := mkResponse { status : Z; body : json }.

(** [res.json(b)] and [res.send(b)] answer with status 200 unless
    [res.status(n)] was called first. *)
Definition res_json (b : json) : Response := {| status := 200; body := b |}.
Definition res_send (b : json) : Response := {| status := 200; body := b |}.
Definition res_status_json (n : Z) (b : json) : Response :=
  {| status := n; body := b |}.

(** *** Small library functions *)

Fixpoint digits (d : Decimal.uint) : jsstring :=
  match d with
  | Decimal.Nil => []
  | Decimal.D0 r => 48%N :: digits r
  | Decimal.D1 r => 49%N :: digits r
  | Decimal.D2 r => 50%N :: digits r
  | Decimal.D3 r => 51%N :: digits r
  | Decimal.D4 r => 52%N :: digits r
  | Decimal.D5 r => 53%N :: digits r
  | Decimal.D6 r => 54%N :: digits r
  | Decimal.D7 r => 55%N :: digits r
  | Decimal.D8 r => 56%N :: digits r
  | Decimal.D9 r => 57%N :: digits r
  end.

(** A non-negative integer inside a template literal. *)
Definition toString (n : nat) : jsstring := digits (Nat.to_uint n).

(** [array.join(sep)] *)
Fixpoint join (sep : jsstring) (l : list jsstring) : jsstring :=
  match l with
  | [] => []
  | x :: r => match r with [] => x | _ :: _ => x ++ sep ++ join sep r end
  end.

(** [array.map((x, i) => f x i)], the index starting at [i]. *)
Fixpoint mapi_from {A B} (i : nat) (f : A -> nat -> B) (l : list A) : list B :=
  match l with
  | [] => []
  | x :: r => f x i :: mapi_from (S i) f r
  end.

Definition mapi {A B} (f : A -> nat -> B) (l : list A) : list B :=
  mapi_from 0 f l.

Definition newline : jsstring := [10%N].
Definition dquote : jsstring := [34%N].

Definition embedding_model : jsstring := lit "text-embedding-3-small".

(** *** The functions of [src/app.js] *)

Section Functions.

Variable srv : Services.

(** [throw new Error(`prefix${error.message}`)] *)
Definition rethrow {A} (prefix : string) (error : Error) : M A :=
  throw (mkError (lit prefix ++ message error)).

Definition parseFile (file : File) : M jsstring :=
  let ext := extname_toLowerCase srv (originalname file) in
  try_catch
    (if list_eq_dec N.eq_dec ext (lit ".pdf") then
       pdfData <- await (ReadFile (path file)) (fun w => fs_readFile srv w (path file)) ;;
       await PdfParse (fun w => pdf_text srv w pdfData)
     else if list_eq_dec N.eq_dec ext (lit ".docx") then
       docxData <- await (ReadFile (path file)) (fun w => fs_readFile srv w (path file)) ;;
       await MammothExtractRawText (fun w => docx_value srv w docxData)
     else if list_eq_dec N.eq_dec ext (lit ".txt") then
       await (ReadFileUtf8 (path file)) (fun w => fs_readFile_utf8 srv w (path file))
     else
       throw (mkError (lit "Unsupported file type")))
    (rethrow "Error parsing file: ").

(** [openai.embeddings.create({input, model})] followed by
    [response.data[0].embedding]. *)
Definition openai_embedding (input : jsstring) : M embedding :=
  await (EmbeddingsCreate input embedding_model)
        (fun w => embeddings_create srv w input).

(** The [for ... of] loop of [getEmbeddings], [embeddings] being the array
    built so far. *)
Fixpoint getEmbeddings_loop (chunks : list jsstring) (embeddings : list embedding)
  : M (list embedding) :=
  match chunks with
  | [] => ret embeddings
  | chunk :: rest =>
      e <- openai_embedding chunk ;;
      getEmbeddings_loop rest (embeddings ++ [e])
  end.

Definition getEmbeddings (chunks : list jsstring) : M (list embedding) :=
  try_catch (getEmbeddings_loop chunks [])
            (rethrow "Error generating embeddings: ").

Definition getEmbedding (text : jsstring) : M embedding :=
  try_catch (openai_embedding text)
            (rethrow "Error generating embedding: ").

Definition default_limit : Z := 5.

Definition getSimilarChunks (embedding : embedding) (limit : Z)
  : M (option (list match_row)) :=
  try_catch
    (await (RpcMatchChunks embedding limit)
           (fun w => rpc_match_chunks srv w embedding limit))
    (rethrow "Error finding similar chunks: ").

(** The prompt of [generateResponse]. *)
Definition prompt (question : jsstring) (contexts : list match_row) : jsstring :=
  lit "You are an assistant. Answer the question using only the provided context. If you cannot find the answer in the context, say "
  ++ dquote ++ lit "I don't have enough information to answer this question." ++ dquote
  ++ newline ++ newline
  ++ lit "Context:" ++ newline
  ++ join (newline ++ newline)
       (mapi (fun ctx i => lit "[" ++ toString (i + 1) ++ lit "] " ++ match_content ctx)
             contexts)
  ++ newline ++ newline
  ++ lit "Question: " ++ question
  ++ newline ++ newline
  ++ lit "Answer:".

Definition system_instruction : jsstring :=
  lit "You are a helpful assistant that answers questions based solely on the provided context. If the context doesn't contain the answer, acknowledge that you don't have enough information.".

(** The object handed to [openai.chat.completions.create]. *)
Definition completion_of (question : jsstring) (contexts : list match_row)
  : completion_request :=
  {| model := lit "gpt-4";
     messages := [ {| role := lit "system"; message_content := system_instruction |};
                   {| role := lit "user"; message_content := prompt question contexts |} ];
     temperature := 7 # 10;
     max_tokens := 500 |}.

Definition generateResponse (question : jsstring) (contexts : list match_row)
  : M jsstring :=
  try_catch
    (let request := completion_of question contexts in
     answer <- await (ChatCompletionsCreate request)
                     (fun w => chat_completions_create srv w request) ;;
     ret (trim answer))
    (rethrow "Error generating GPT response: ").

(** [supabase.from('documents').insert({...}).select().single()]: the row
    comes back on success and is then part of the table. *)
Definition insert_document (filename original_name upload_date : jsstring)
  : M (Error + document_row) :=
  fun w =>
    let w' := log (InsertDocument filename original_name upload_date) w in
    match documents_insert srv w filename original_name upload_date with
    | inl documentError => (w', inr (inl documentError))
    | inr document =>
        ({| documents := documents w' ++ [document];
            chunks_table := chunks_table w';
            trace := trace w' |}, inr (inr document))
    end.

(** [supabase.from('chunks').insert(rows)]: one statement, all rows or an
    [error]. *)
Definition insert_chunks (rows : list chunk_row) : M (option Error) :=
  fun w =>
    let w' := log (InsertChunks rows) w in
    match chunks_insert srv w rows with
    | Some chunksError => (w', inr (Some chunksError))
    | None =>
        ({| documents := documents w';
            chunks_table := chunks_table w' ++ rows;
            trace := trace w' |}, inr None)
    end.

(** [fsPromises.unlink(p)] *)
Definition unlink (p : jsstring) : M unit :=
  await (Unlink p)
        (fun w => match fs_unlink srv w p with
                  | Some e => inl e
                  | None => inr tt
                  end).

Definition console_error (error : Error) : M unit :=
  perform (ConsoleError (message error)) (fun _ => tt).

(** [chunks.map((content, index) => ({...}))] of the upload handler. *)
Definition chunksToInsert (document : document_row) (chunks : list jsstring)
  (embeddings : list embedding) : list chunk_row :=
  mapi (fun content index =>
          {| document_id := id document;
             chunk_index := Z.of_nat index;
             content := content;
             chunk_embedding := nth_error embeddings index |})
       chunks.

(** The [try] block of the upload handler. *)
Definition upload_pipeline (file : File) : M Response :=
  text <- parseFile file ;;
  let chunks := chunkText text in
  embeddings <- getEmbeddings chunks ;;
  now <- (fun w => (w, inr (date_toISOString srv w))) ;;
  inserted <- insert_document (filename file) (originalname file) now ;;
  match inserted with
  | inl documentError => rethrow "Error inserting document: " documentError
  | inr document =>
      chunksError <- insert_chunks (chunksToInsert document chunks embeddings) ;;
      match chunksError with
      | Some chunksError => rethrow "Error inserting chunks: " chunksError
      | None =>
          unlink (path file) ;;;
          ret (res_json (JObject
            [prop "message" (JString (lit "File processed and stored successfully"));
             prop "document" (JObject
                [prop "id" (JString (id document));
                 prop "filename" (JString (doc_filename document));
                 prop "original_name" (JString (original_name document));
                 prop "upload_date" (JString (upload_date document))]);
             prop "chunks_count" (JInt (Z.of_nat (List.length chunks)))]))
      end
  end.

(** [app.post('/api/upload', ...)], after multer has filled [req.file]. *)
Definition upload (req_file : option File) : M Response :=
  match req_file with
  | None =>
      ret (res_status_json 400 (JObject [prop "error" (JString (lit "No file uploaded"))]))
  | Some file =>
      try_catch
        (upload_pipeline file)
        (fun error =>
           match req_file with
           | Some file => try_catch (unlink (path file)) console_error
           | None => ret tt
           end ;;;
           ret (res_status_json 500 (JObject [prop "error" (JString (message error))])))
  end.

Definition no_information : jsstring :=
  lit "I don't have any relevant information to answer this question.".

(** [!x] for a value that is undefined or a string. *)
Definition falsy (x : option jsstring) : bool :=
  match x with
  | None => true
  | Some s => negb (truthy s)
  end.

(** [!similarChunks || similarChunks.length === 0] *)
Definition no_chunks (similarChunks : option (list match_row)) : bool :=
  match similarChunks with
  | None => true
  | Some l => Z.of_nat (List.length l) =? 0
  end.

Definition rows_of (similarChunks : option (list match_row)) : list match_row :=
  match similarChunks with
  | None => []
  | Some l => l
  end.

(** The [try] block of the question handler, [question] being
    [req.body.question]. *)
Definition ask_pipeline (question : option jsstring) : M Response :=
  match question with
  | Some q =>
      if falsy question then
        ret (res_status_json 400 (JObject [prop "error" (JString (lit "Question is required"))]))
      else
        questionEmbedding <- getEmbedding q ;;
        similarChunks <- getSimilarChunks questionEmbedding default_limit ;;
        if no_chunks similarChunks then
          ret (res_json (JObject [prop "answer" (JString no_information);
                                  prop "chunks" (JArray [])]))
        else
          answer <- generateResponse q (rows_of similarChunks) ;;
          ret (res_json (JObject
            [prop "answer" (JString answer);
             prop "chunks" (JArray (map (fun chunk =>
                  JObject [prop "content" (JString (match_content chunk));
                           prop "similarity" (JNumber (similarity chunk))])
                (rows_of similarChunks)))]))
  | None =>
      ret (res_status_json 400 (JObject [prop "error" (JString (lit "Question is required"))]))
  end.

(** [app.post('/api/ask', ...)] *)
Definition ask (question : option jsstring) : M Response :=
  try_catch
    (ask_pipeline question)
    (fun error =>
       console_error error ;;;
       ret (res_status_json 500 (JObject [prop "error" (JString (message error))]))).

(** The [try] block of the Slack handler, [text] being [req.body.text]. *)
Definition slack_pipeline (text : option jsstring) : M Response :=
  match text with
  | Some t =>
      if falsy text then
        ret (res_send (JObject
          [prop "response_type" (JString (lit "ephemeral"));
           prop "text" (JString (lit "Please provide a question after the slash command."))]))
      else
        questionEmbedding <- getEmbedding t ;;
        similarChunks <- getSimilarChunks questionEmbedding default_limit ;;
        if no_chunks similarChunks then
          ret (res_send (JObject
            [prop "response_type" (JString (lit "in_channel"));
             prop "text" (JString no_information)]))
        else
          answer <- generateResponse t (rows_of similarChunks) ;;
          ret (res_send (JObject
            [prop "response_type" (JString (lit "in_channel"));
             prop "text" (JString answer)]))
  | None =>
      ret (res_send (JObject
        [prop "response_type" (JString (lit "ephemeral"));
         prop "text" (JString (lit "Please provide a question after the slash command."))]))
  end.

(** [app.post('/api/slack/ask', ...)] *)
Definition slack_ask (text : option jsstring) : M Response :=
  try_catch
    (slack_pipeline text)
    (fun error =>
       console_error error ;;;
       ret (res_send (JObject
         [prop "response_type" (JString (lit "ephemeral"));
          prop "text" (JString (lit "Error: " ++ message error))]))).

End Functions.

(** *** Vocabulary for the statements about the pipelines *)

(** The world once the events [es] have joined the trace. *)
Definition after (w : World) (es : list event) : World :=
  {| documents := documents w; chunks_table := chunks_table w;
     trace := trace w ++ es |}.

(** The call [getEmbeddings] makes for one chunk. *)
Definition embed_event (chunk : jsstring) : event :=
  EmbeddingsCreate chunk embedding_model.

(** Neither table has changed between [w] and [w']. *)
Definition same_tables (w w' : World) : Prop :=
  documents w' = documents w /\ chunks_table w' = chunks_table w.

(** A computation that touches nothing but the trace. *)
Definition only_logs {A} (m : M A) : Prop :=
  forall w w' r, m w = (w', r) -> exists es, w' = after w es.

(** A property of the JSON object a response carries. *)
Definition body_field (name : string) (r : Response) : option json :=
  match body r with
  | JObject fields => field name fields
  | _ => None
  end.

(** The world once the row [doc] has been inserted for [file] at the date
    [now]. *)
Definition document_inserted (w : World) (file : File) (now : jsstring)
  (doc : document_row) : World :=
  {| documents := documents w ++ [doc];
     chunks_table := chunks_table w;
     trace := trace w ++ [InsertDocument (filename file) (originalname file) now] |}.

(** The world once the rows [rows] have been inserted. *)
Definition chunks_inserted (w : World) (rows : list chunk_row) : World :=
  {| documents := documents w;
     chunks_table := chunks_table w ++ rows;
     trace := trace w ++ [InsertChunks rows] |}.

(** The store step seen from the handler, between the world [w] before the
    request and the world [w'] after it: the document and all the rows are
    recorded, or neither table has changed. *)
Definition atomic_store (w w' : World) (doc : document_row) (rows : list chunk_row)
  : Prop :=
  (documents w' = documents w ++ [doc] /\ chunks_table w' = chunks_table w ++ rows) \/
  same_tables w w'.

End Pipeline.

(** ** Concrete inputs used by the examples *)

Module Samples.

Import Chunker.

(** A run of the letter [a]: no white space, no punctuation. *)
Definition letters (n : nat) : jsstring := repeat 97%N n.

(** A text whose only sentence terminator stands at index 800 of the first
    window, the first of its last 200 characters. *)
Definition period_at_800 : jsstring := letters 800 ++ [period] ++ letters 300.

(** A text whose only sentence terminator stands at index 900. *)
Definition period_at_900 : jsstring := letters 900 ++ [period] ++ letters 300.

Import Pipeline.

Definition empty_world : World :=
  {| documents := []; chunks_table := []; trace := [] |}.

(** An uploaded text file. *)
Definition notes_txt : File :=
  {| fieldname := lit "file";
     originalname := lit "notes.txt";
     filename := lit "file-1.txt";
     path := lit "uploads/file-1.txt" |}.

Definition failure (msg : string) : Error := mkError (lit msg).

(** Collaborators that read [notes.txt] as a short text, answer every
    embedding with the same vector and find one chunk; each of the flags
    makes one of them fail. *)
Definition services (embed_ok document_ok chunks_ok unlink_ok search_ok completion_ok : bool)
  : Services :=
  {| extname_toLowerCase := fun _ => lit ".txt";
     fs_readFile := fun _ _ => inr [];
     fs_readFile_utf8 := fun _ _ => inr (lit "Slack bots answer questions. ");
     pdf_text := fun _ _ => inl (failure "not a pdf");
     docx_value := fun _ _ => inl (failure "not a docx");
     fs_unlink := fun _ _ => if unlink_ok then None else Some (failure "EPERM: operation not permitted, unlink");
     date_toISOString := fun _ => lit "2024-03-05T00:00:00.000Z";
     embeddings_create := fun _ _ =>
       if embed_ok then inr [1 # 2; 1 # 4] else inl (failure "429 rate limit");
     chat_completions_create := fun _ _ =>
       if completion_ok then inr (lit " Yes. ") else inl (failure "503 unavailable");
     documents_insert := fun _ f o d =>
       if document_ok then inr (mkDocument (lit "doc-1") f o d)
       else inl (failure "permission denied for table documents");
     chunks_insert := fun _ _ =>
       if chunks_ok then None else Some (failure "expected 1536 dimensions, not 2");
     rpc_match_chunks := fun _ _ _ =>
       if search_ok
       then inr (Some [mkMatch (lit "c-1") (lit "Slack bots answer questions.")
                               (lit "doc-1") 0 (9 # 10)])
       else inl (failure "function match_chunks does not exist") |}.

Definition all_fine : Services := services true true true true true true.

(** The same collaborators in front of an empty [chunks] table: the search
    succeeds and finds nothing. *)
Definition nothing_stored : Services :=
  {| extname_toLowerCase := extname_toLowerCase all_fine;
     fs_readFile := fs_readFile all_fine;
     fs_readFile_utf8 := fs_readFile_utf8 all_fine;
     pdf_text := pdf_text all_fine;
     docx_value := docx_value all_fine;
     fs_unlink := fs_unlink all_fine;
     date_toISOString := date_toISOString all_fine;
     embeddings_create := embeddings_create all_fine;
     chat_completions_create := chat_completions_create all_fine;
     documents_insert := documents_insert all_fine;
     chunks_insert := chunks_insert all_fine;
     rpc_match_chunks := fun _ _ _ => inr (Some []) |}.


(** The chunk insert is refused after the document insert went through. *)
Definition chunk_insert_fails : Services := services true true false true true true.

(** Everything is stored, and then the uploaded file cannot be removed. *)
Definition unlink_fails : Services := services true true true false true true.

(** The row the document insert of the samples returns for [notes_txt]. *)
Definition stored_document : document_row :=
  {| id := lit "doc-1";
     doc_filename := lit "file-1.txt";
     original_name := lit "notes.txt";
     upload_date := lit "2024-03-05T00:00:00.000Z" |}.

(** The chunk rows built for it: one chunk, one embedding. *)
Definition stored_rows : list chunk_row :=
  [ {| document_id := lit "doc-1";
       chunk_index := 0;
       content := lit "Slack bots answer questions.";
       chunk_embedding := Some [1 # 2; 1 # 4] |} ].

End Samples.

(** ** The windows of a run of the chunker *)

Module Windows.

Import Chunker.

(** [startIndex] after one pass of the body that begins at [start]. *)
Definition next_start (text : jsstring) (start : Z) : Z :=
  startIndex (loop_body text {| startIndex := start; chunks := [] |}).

(** [endIndex] as that pass leaves it. *)
Definition end_of (text : jsstring) (start : Z) : Z :=
  next_start text start + overlap.

(** The pairs [(startIndex, endIndex)] of the passes the loop makes from
    [start] on, under the same fuel as the loop. *)
Fixpoint windows_from (fuel : nat) (text : jsstring) (start : Z) : list (Z * Z) :=
  if start <? length text then
    match fuel with
    | O => []
    | S fuel' =>
        (start, end_of text start) :: windows_from fuel' text (next_start text start)
    end
  else [].

Definition windows (text : jsstring) : list (Z * Z) :=
  windows_from (List.length text) text 0.

(** The chunk pushed for a window. *)
Definition chunk_of (text : jsstring) (w : Z * Z) : jsstring :=
  trim (slice text (fst w) (snd w)).

(** A string without white space at either end. *)
Definition trimmed (s : jsstring) : Prop :=
  s = [] \/
  (exists c r, s = c :: r /\ isWhiteSpace c = false) /\
  (exists r c, s = r ++ [c] /\ isWhiteSpace c = false).

(** The windows a text without sentence terminator gets: one every
    [chunkSize - overlap] characters. *)
Definition grid (text : jsstring) : list (Z * Z) :=
  map (fun i => (800 * Z.of_nat i, 800 * Z.of_nat i + chunkSize))
      (seq 0 (Z.to_nat ((length text + 799) / 800))).

End Windows.

(** ** Start-up, the upload filter and the error middleware *)

Module Server.

Import Pipeline.

(** [process.env]: a variable is unset or holds a string. *)
Definition Env := jsstring -> option jsstring.

Definition requiredEnvVars : list jsstring :=
  [lit "OPENAI_API_KEY"; lit "NEXT_PUBLIC_SUPABASE_URL";
   lit "NEXT_PUBLIC_SUPABASE_ANON_KEY"].

(** [requiredEnvVars.filter(envVar => !process.env[envVar])] *)
Definition missingEnvVars (env : Env) : list jsstring :=
  filter (fun envVar => falsy (env envVar)) requiredEnvVars.

(** How the check of the environment ends: the process exits after
    [console.error], or the module goes on loading. *)
Inductive startup_outcome :=
| Exit (code : Z) (logged : jsstring)
| GoesOn.

Definition startup (env : Env) : startup_outcome :=
  if 0 <? Z.of_nat (List.length (missingEnvVars env)) then
    Exit 1 (lit "Missing required environment variables: "
            ++ join (lit ", ") (missingEnvVars env))
  else GoesOn.

(** [array.includes(x)] on an array of strings. *)
Definition Array_includes (l : list jsstring) (x : jsstring) : bool :=
  existsb (fun y => if list_eq_dec N.eq_dec y x then true else false) l.

Definition allowedTypes : list jsstring := [lit ".pdf"; lit ".docx"; lit ".txt"].

(** [fileFilter]: what it hands to [cb], an error or [(null, true)]. *)
Definition fileFilter (srv : Services) (file : File) : Error + bool :=
  let ext := extname_toLowerCase srv (originalname file) in
  if Array_includes allowedTypes ext then inr true
  else inl (mkError (lit "Invalid file type. Only PDF, DOCX, and TXT files are allowed.")).






(** [s.startsWith(prefix)], as a proposition. *)
Definition startsWith (s prefix : jsstring) : Prop :=
  exists rest, s = prefix ++ rest.

(** An environment in which every required variable is set. *)
Definition full_env : Env := fun _ => Some (lit "x").

(** The sample collaborators in front of a file named [*.exe]. *)
Definition exe_services : Services :=
  {| extname_toLowerCase := fun _ => lit ".exe";
     fs_readFile := fs_readFile Samples.all_fine;
     fs_readFile_utf8 := fs_readFile_utf8 Samples.all_fine;
     pdf_text := pdf_text Samples.all_fine;
     docx_value := docx_value Samples.all_fine;
     fs_unlink := fs_unlink Samples.all_fine;
     date_toISOString := date_toISOString Samples.all_fine;
     embeddings_create := embeddings_create Samples.all_fine;
     chat_completions_create := chat_completions_create Samples.all_fine;
     documents_insert := documents_insert Samples.all_fine;
     chunks_insert := chunks_insert Samples.all_fine;
     rpc_match_chunks := rpc_match_chunks Samples.all_fine |}.

(** Collaborators in front of an empty text file. *)
Definition empty_file_services : Services :=
  {| extname_toLowerCase := fun _ => lit ".txt";
     fs_readFile := fs_readFile Samples.all_fine;
     fs_readFile_utf8 := fun _ _ => inr [];
     pdf_text := pdf_text Samples.all_fine;
     docx_value := docx_value Samples.all_fine;
     fs_unlink := fs_unlink Samples.all_fine;
     date_toISOString := date_toISOString Samples.all_fine;
     embeddings_create := embeddings_create Samples.all_fine;
     chat_completions_create := chat_completions_create Samples.all_fine;
     documents_insert := documents_insert Samples.all_fine;
     chunks_insert := chunks_insert Samples.all_fine;
     rpc_match_chunks := rpc_match_chunks Samples.all_fine |}.

End Server.

(** ** Facts about strings *)

Module JSFacts.

Lemma length_nonneg (s : jsstring) : 0 <= length s.
Proof. unfold length. lia. Qed.

(** With a non-negative start, a slice is never longer than the distance
    between its two indices. *)
Lemma slice_length_le (s : jsstring) (start end_ : Z) :
  0 <= start -> 0 <= end_ -> length (slice s start end_) <= Z.max (end_ - start) 0.
Proof.
  intros Hs He. unfold slice, length; cbv zeta.
  destruct (Z.ltb_spec start 0); [lia|].
  destruct (Z.ltb_spec end_ 0); [lia|].
  rewrite length_firstn, length_skipn.
  set (n := List.length s) in *. lia.
Qed.

(** A slice from [0] that reaches the end is the whole string. *)
Lemma slice_whole (s : jsstring) (end_ : Z) :
  length s <= end_ -> slice s 0 end_ = s.
Proof.
  intros H. pose proof (length_nonneg s) as Hn. unfold slice; cbv zeta.
  destruct (Z.ltb_spec end_ 0); [lia|].
  change (0 <? 0) with false; cbv iota.
  rewrite (Z.min_l 0 (length s)) by lia. cbn [Z.to_nat skipn].
  apply firstn_all2. unfold length in *.
  set (n := List.length s) in *. lia.
Qed.

(** Shortening the end of a slice keeps a prefix of it. *)
Lemma slice_prefix (s : jsstring) (start e1 e2 : Z) :
  0 <= start <= e1 -> e1 <= e2 ->
  slice s start e1 = firstn (Z.to_nat (e1 - start)) (slice s start e2).
Proof.
  intros H1 H2. unfold slice; cbv zeta.
  destruct (Z.ltb_spec start 0); [lia|].
  destruct (Z.ltb_spec e1 0); [lia|].
  destruct (Z.ltb_spec e2 0); [lia|].
  rewrite firstn_firstn. f_equal.
  unfold length. set (n := List.length s). lia.
Qed.

Lemma trimStart_length (s : jsstring) : length (trimStart s) <= length s.
Proof.
  induction s as [|c r IH]; cbn [trimStart]; [lia|].
  destruct (isWhiteSpace c); unfold length in *; cbn [List.length] in *; lia.
Qed.

Lemma trim_length (s : jsstring) : length (trim s) <= length s.
Proof.
  unfold trim, trimEnd.
  pose proof (trimStart_length s) as H1.
  pose proof (trimStart_length (rev (trimStart s))) as H2.
  unfold length in *. rewrite length_rev in *. lia.
Qed.

Lemma lastIndexOf_range (s : jsstring) (c : code_unit) :
  -1 <= lastIndexOf s c < length s.
Proof.
  induction s as [|x r IH]; cbn [lastIndexOf].
  - unfold length; cbn; lia.
  - unfold length in *. cbn [List.length].
    destruct (Z.leb_spec 0 (lastIndexOf r c)); [lia|].
    destruct (N.eqb x c); lia.
Qed.

End JSFacts.

(** ** Facts about the chunker *)

Module ChunkerFacts.

Import Chunker JSFacts.

Lemma char_at_range (s : jsstring) (j : Z) (c : code_unit) :
  char_at s j = Some c -> 0 <= j < length s.
Proof.
  unfold char_at, length. destruct (Z.ltb_spec j 0); [discriminate|].
  intros E. assert (nth_error s (Z.to_nat j) <> None) as N by congruence.
  apply nth_error_Some in N. lia.
Qed.

Lemma char_at_head (x : code_unit) (r : jsstring) : char_at (x :: r) 0 = Some x.
Proof. reflexivity. Qed.

Lemma char_at_tail (x : code_unit) (r : jsstring) (j : Z) :
  0 < j -> char_at (x :: r) j = char_at r (j - 1).
Proof.
  intros Hj. unfold char_at.
  destruct (Z.ltb_spec j 0); [lia|]. destruct (Z.ltb_spec (j - 1) 0); [lia|].
  replace (Z.to_nat j) with (S (Z.to_nat (j - 1))) by lia. reflexivity.
Qed.

(** What [lastIndexOf] answers: [-1] exactly when the character does not
    occur, and otherwise the index of its last occurrence. *)
Lemma lastIndexOf_spec (s : jsstring) (c : code_unit) :
  (lastIndexOf s c = -1 /\ forall j x, char_at s j = Some x -> x <> c) \/
  (0 <= lastIndexOf s c /\ char_at s (lastIndexOf s c) = Some c /\
   forall j x, lastIndexOf s c < j -> char_at s j = Some x -> x <> c).
Proof.
  induction s as [|x r IH]; cbn [lastIndexOf].
  - left. split; [reflexivity|]. intros j y E. apply char_at_range in E.
    unfold length in E; cbn in E; lia.
  - destruct IH as [[E IH]|(Hpos & Hat & IH)].
    + rewrite E. cbn [Z.leb Z.compare]. destruct (N.eqb_spec x c) as [->|Hne].
      * right. split; [lia|]. split; [apply char_at_head|].
        intros j y Hj Ey. rewrite char_at_tail in Ey by lia. eauto.
      * left. split; [reflexivity|]. intros j y Ey.
        destruct (Z.eq_dec j 0) as [->|Hj].
        -- rewrite char_at_head in Ey. congruence.
        -- pose proof (char_at_range _ _ _ Ey).
           rewrite char_at_tail in Ey by lia. eauto.
    + destruct (Z.leb_spec 0 (lastIndexOf r c)); [|lia].
      right. split; [lia|]. split.
      * rewrite char_at_tail by lia.
        replace (lastIndexOf r c + 1 - 1) with (lastIndexOf r c) by lia. exact Hat.
      * intros j y Hj Ey. rewrite char_at_tail in Ey by lia.
        apply (IH (j - 1)); [lia|exact Ey].
Qed.

Lemma sentence_end_cases (c : code_unit) :
  sentence_end c = true <-> c = period \/ c = question_mark \/ c = exclamation.
Proof.
  unfold sentence_end. rewrite !orb_true_iff, !N.eqb_eq. tauto.
Qed.

Lemma sentence_end_false (c : code_unit) :
  c <> period -> c <> question_mark -> c <> exclamation -> sentence_end c = false.
Proof.
  intros. destruct (sentence_end c) eqn:E; [|reflexivity].
  apply sentence_end_cases in E. tauto.
Qed.

(** [lastBreak] is [-1] on a window without sentence terminator and is the
    place of the last one otherwise. *)
Lemma lastBreak_spec (w : jsstring) :
  (lastBreak w = -1 /\ no_sentence_end w) \/
  (0 <= lastBreak w /\ last_sentence_end w (lastBreak w)).
Proof.
  unfold lastBreak, Math_max3, no_sentence_end, last_sentence_end; cbv zeta.
  destruct (lastIndexOf_spec w period) as [[Ep Hp]|(Pp & Ap & Hp)];
  destruct (lastIndexOf_spec w question_mark) as [[Eq Hq]|(Pq & Aq & Hq)];
  destruct (lastIndexOf_spec w exclamation) as [[Ee He]|(Pe & Ae & He)].
  1: { left. split; [lia|]. intros j c E. apply sentence_end_false; eauto. }
  all: right; split; [lia|];
    remember (Z.max (Z.max (lastIndexOf w period) (lastIndexOf w question_mark))
                    (lastIndexOf w exclamation)) as m eqn:Em;
    assert (m = lastIndexOf w period \/ m = lastIndexOf w question_mark \/
            m = lastIndexOf w exclamation) as Hm by lia;
    split;
    [ destruct Hm as [Hm|[Hm|Hm]]; rewrite Hm;
      first [ exists period; split; [assumption|reflexivity]
            | exists question_mark; split; [assumption|reflexivity]
            | exists exclamation; split; [assumption|reflexivity]
            | exfalso; lia ]
    | intros j c Hj E; apply sentence_end_false;
      first [ apply (Hp j c); first [lia|assumption]
            | apply (Hq j c); first [lia|assumption]
            | apply (He j c); first [lia|assumption] ] ].
Qed.

Lemma last_sentence_end_unique (w : jsstring) (i j : Z) :
  last_sentence_end w i -> last_sentence_end w j -> i = j.
Proof.
  intros [(c & Ec & Sc) Hi] [(d & Ed & Sd) Hj].
  destruct (Z.lt_trichotomy i j) as [L|[E|L]]; [|exact E|].
  - specialize (Hi j d L Ed). congruence.
  - specialize (Hj i c L Ec). congruence.
Qed.

Lemma lastBreak_is (w : jsstring) (i : Z) :
  last_sentence_end w i -> lastBreak w = i.
Proof.
  intros H. destruct (lastBreak_spec w) as [[_ N]|[_ L]].
  - destruct H as [(c & Ec & Sc) _]. specialize (N i c Ec). congruence.
  - eapply last_sentence_end_unique; eassumption.
Qed.

Lemma lastBreak_none (w : jsstring) :
  no_sentence_end w -> lastBreak w = -1.
Proof.
  intros N. destruct (lastBreak_spec w) as [[E _]|[_ [(c & Ec & Sc) _]]]; [exact E|].
  specialize (N _ _ Ec). congruence.
Qed.

Lemma lastBreak_range (w : jsstring) : -1 <= lastBreak w < length w.
Proof.
  unfold lastBreak, Math_max3; cbv zeta.
  pose proof (lastIndexOf_range w period).
  pose proof (lastIndexOf_range w question_mark).
  pose proof (lastIndexOf_range w exclamation). lia.
Qed.

(** The two ways through the body of the loop: the window is cut after
    its sentence break, or the raw window is kept. *)
Lemma loop_body_cases (text : jsstring) (st : loop_state) :
  (startIndex st + chunkSize < length text /\
   chunkSize - overlap < lastBreak (window text (startIndex st)) /\
   loop_body text st =
     {| startIndex :=
          startIndex st + lastBreak (window text (startIndex st)) + 1 - overlap;
        chunks :=
          chunks st ++
          [trim (slice text (startIndex st)
                   (startIndex st + lastBreak (window text (startIndex st)) + 1))] |})
  \/
  ((length text <= startIndex st + chunkSize \/
    lastBreak (window text (startIndex st)) <= chunkSize - overlap) /\
   loop_body text st =
     {| startIndex := startIndex st + chunkSize - overlap;
        chunks := chunks st ++ [trim (window text (startIndex st))] |}).
Proof.
  unfold loop_body, window; cbv zeta.
  destruct (Z.ltb_spec (startIndex st + chunkSize) (length text)) as [Hin|Hout].
  - destruct (Z.ltb_spec (chunkSize - overlap)
                (lastBreak (slice text (startIndex st) (startIndex st + chunkSize))))
      as [Hbrk|Hraw].
    + destruct (Z.eqb_spec
                  (lastBreak (slice text (startIndex st) (startIndex st + chunkSize)))
                  (-1)) as [E|_].
      * exfalso. unfold chunkSize, overlap in *. lia.
      * left. repeat split; assumption.
    + right. rewrite andb_false_r. split; [right; assumption|reflexivity].
  - right. split; [left; assumption|reflexivity].
Qed.

(** However the body goes, the window start moves forward, by at least
    [chunkSize - 2 * overlap + 2] and by at most [chunkSize - overlap]. *)
Lemma loop_body_advance (text : jsstring) (st : loop_state) :
  startIndex st + 602 <= startIndex (loop_body text st) <= startIndex st + 800.
Proof.
  pose proof (lastBreak_range (window text (startIndex st))) as R.
  assert (length (window text (startIndex st)) <= chunkSize \/ startIndex st < 0) as L.
  { destruct (Z.lt_ge_cases (startIndex st) 0) as [N|P]; [right; exact N|left].
    unfold window. etransitivity; [apply slice_length_le|];
      unfold chunkSize; lia. }
  destruct (loop_body_cases text st) as [(_ & B & ->)|(_ & ->)];
    cbn [startIndex]; unfold chunkSize, overlap in *; [|lia].
  destruct L as [L|N]; [lia|].
  (* a negative start never arises in a run; the bound still holds there *)
  assert (length (window text (startIndex st)) <= 1000); [|lia].
  unfold window, slice, length, chunkSize; cbv zeta.
  destruct (Z.ltb_spec (startIndex st) 0); [|lia].
  rewrite length_firstn, length_skipn. set (n := List.length text).
  destruct (Z.ltb_spec (startIndex st + 1000) 0); lia.
Qed.

Lemma bounded_initial : bounded initial.
Proof. split; [cbn; lia|constructor]. Qed.

(** The body keeps the window start non-negative and pushes a chunk that
    fits the chunk size. *)
Lemma bounded_step (text : jsstring) (st : loop_state) :
  bounded st -> bounded (loop_body text st).
Proof.
  intros [Hs Hc]. pose proof (loop_body_advance text st) as A.
  split; [lia|].
  pose proof (lastBreak_range (window text (startIndex st))) as R.
  assert (length (window text (startIndex st)) <= chunkSize) as L.
  { unfold window. etransitivity; [apply slice_length_le|]; unfold chunkSize; lia. }
  destruct (loop_body_cases text st) as [(_ & B & ->)|(_ & ->)]; cbn [chunks];
    apply Forall_app; (split; [exact Hc|]); constructor; try constructor.
  - etransitivity; [apply trim_length|].
    etransitivity; [apply slice_length_le|]; unfold chunkSize, overlap in *; lia.
  - etransitivity; [apply trim_length|]. exact L.
Qed.

(** A property kept by the body holds when the loop is left, and the
    condition of the loop is then false. *)
Lemma while_loop_invariant (P : loop_state -> Prop) (text : jsstring) :
  (forall st, P st -> loop_cond text st = true -> P (loop_body text st)) ->
  forall fuel st st',
    P st -> while_loop fuel text st = Some st' ->
    P st' /\ loop_cond text st' = false.
Proof.
  intros Step fuel. induction fuel as [|fuel IH]; intros st st' Hst; cbn [while_loop];
    destruct (loop_cond text st) eqn:C; intros E; try discriminate.
  - injection E as <-. auto.
  - eapply IH; [|exact E]. auto.
  - injection E as <-. auto.
Qed.

(** Fuel that covers the distance from the window start to the end of the
    text is enough for the loop to be left. *)
Lemma while_loop_exits (text : jsstring) (fuel : nat) (st : loop_state) :
  length text - startIndex st <= Z.of_nat fuel ->
  exists st', while_loop fuel text st = Some st'.
Proof.
  revert st. induction fuel as [|fuel IH]; intros st Hf; cbn [while_loop];
    unfold loop_cond; destruct (Z.ltb_spec (startIndex st) (length text)) as [C|C];
    try (eexists; reflexivity).
  - lia.
  - apply IH. pose proof (loop_body_advance text st). lia.
Qed.

End ChunkerFacts.

(** ** What the specification says of the chunker *)

Module ChunkerSpec.

Import Chunker JSFacts ChunkerFacts Samples.

(** C1, as amended: a non-empty text of at most [chunkSize - overlap] = 800
    characters comes back as exactly one chunk, the whole text trimmed. *)
Theorem short_text_single_chunk (text : jsstring) :
  0 < length text <= chunkSize - overlap ->
  chunkText text = [trim text].
Proof.
  intros [Hpos Hle]. unfold chunkText.
  destruct text as [|c r] eqn:Et; [unfold length in Hpos; cbn in Hpos; lia|].
  rewrite <- Et in *. replace (List.length text) with (S (List.length r)) by (subst; reflexivity).
  cbn [while_loop]. unfold loop_cond at 1. cbn [initial startIndex].
  destruct (Z.ltb_spec 0 (length text)); [|lia].
  destruct (loop_body_cases text initial) as [(Hin & _)|(_ & ->)].
  - cbn [initial startIndex] in Hin. unfold chunkSize, overlap in *. lia.
  - cbn [initial startIndex chunks app]. unfold window.
    rewrite slice_whole by (unfold chunkSize, overlap in *; lia).
    destruct (List.length r); cbn [while_loop]; unfold loop_cond; cbn [startIndex];
      (destruct (Z.ltb_spec (0 + chunkSize - overlap) (length text));
       [unfold chunkSize, overlap in *; lia|reflexivity]).
Qed.

Lemma short_text_single_chunk_witness :
  0 < length (lit " Hello. ") <= chunkSize - overlap /\
  chunkText (lit " Hello. ") = [trim (lit " Hello. ")].
Proof.
  assert (0 < length (lit " Hello. ") <= chunkSize - overlap) as H
    by (unfold length, chunkSize, overlap; cbn; lia).
  split; [exact H|].
  apply (short_text_single_chunk (lit " Hello. ")). exact H.
Defined.

(** C1 as the specification words it fails twice: the empty text gives no
    chunk at all, and a text of 801 to 1000 characters gives a second chunk,
    the tail that starts at index 800. *)
Lemma short_text_counterexample :
  (length [] <= chunkSize /\ chunkText [] = []) /\
  (length (letters 900) <= chunkSize /\
   chunkText (letters 900) = [letters 900; letters 100] /\
   chunkText (letters 900) <> [trim (letters 900)]).
Proof.
  split; [split; [discriminate|reflexivity]|].
  split; [discriminate|]. split; [vm_compute; reflexivity|].
  vm_compute. discriminate.
Qed.

(** C8: with [chunkSize = 1000] and [overlap = 200] the loop of [chunkText]
    is left for every text.  Each pass moves the window start strictly
    forward; run with one unit of fuel per character the loop ends in a state
    whose window start has reached the end of the text, and the chunks of
    that state are what [chunkText] returns. *)
Theorem chunkText_terminates (text : jsstring) :
  (forall st, startIndex st < startIndex (loop_body text st)) /\
  exists st',
    while_loop (List.length text) text initial = Some st' /\
    length text <= startIndex st' /\
    chunkText text = chunks st'.
Proof.
  split.
  - intros st. pose proof (loop_body_advance text st). lia.
  - destruct (while_loop_exits text (List.length text) initial) as [st' E].
    { unfold length. cbn [initial startIndex]. lia. }
    exists st'. split; [exact E|]. split.
    + destruct (while_loop_invariant (fun _ => True) text (fun _ _ _ => I)
                  _ _ _ I E) as [_ C].
      unfold loop_cond in C. apply Z.ltb_ge in C. exact C.
    + unfold chunkText. rewrite E. reflexivity.
Qed.

(** C10: every chunk that [chunkText] returns has at most [chunkSize]
    characters, and the list is the one the loop really ends with. *)
Theorem chunk_length_bound (text : jsstring) :
  (exists st', while_loop (List.length text) text initial = Some st' /\
               chunkText text = chunks st') /\
  Forall (fun chunk => length chunk <= chunkSize) (chunkText text).
Proof.
  destruct (while_loop_exits text (List.length text) initial) as [st' E].
  { unfold length. cbn [initial startIndex]. lia. }
  assert (chunkText text = chunks st') as R by (unfold chunkText; rewrite E; reflexivity).
  split; [exists st'; auto|]. rewrite R.
  eapply (while_loop_invariant bounded text).
  - intros st B _. apply bounded_step, B.
  - apply bounded_initial.
  - exact E.
Qed.

(** C3, as amended: for a window that stops short of the end of the text,
    when the last ['.'], ['?'] or ['!'] of the window stands at an index
    strictly greater than [chunkSize - overlap] = 800 the window is cut
    immediately after it and the next window starts [overlap] before that
    cut; when it stands at index 800 or before, or when there is none, the
    raw window of [chunkSize] characters is kept and the next window starts
    at [startIndex + chunkSize - overlap]; a window that reaches the end of
    the text is kept raw as well. *)
Theorem sentence_break_rule (text : jsstring) (st : loop_state) :
  0 <= startIndex st ->
  (startIndex st + chunkSize < length text ->
   (forall i, last_sentence_end (window text (startIndex st)) i ->
      chunkSize - overlap < i ->
      loop_body text st =
        {| startIndex := startIndex st + i + 1 - overlap;
           chunks := chunks st ++ [trim (cut_after (window text (startIndex st)) i)] |}) /\
   (forall i, last_sentence_end (window text (startIndex st)) i ->
      i <= chunkSize - overlap ->
      loop_body text st =
        {| startIndex := startIndex st + chunkSize - overlap;
           chunks := chunks st ++ [trim (window text (startIndex st))] |}) /\
   (no_sentence_end (window text (startIndex st)) ->
      loop_body text st =
        {| startIndex := startIndex st + chunkSize - overlap;
           chunks := chunks st ++ [trim (window text (startIndex st))] |})) /\
  (length text <= startIndex st + chunkSize ->
   loop_body text st =
     {| startIndex := startIndex st + chunkSize - overlap;
        chunks := chunks st ++ [trim (window text (startIndex st))] |}).
Proof.
  intros Hs. split; [intros Hin; repeat split|intros Hout].
  - intros i L Hi. rewrite <- (lastBreak_is _ _ L) in *.
    pose proof (lastBreak_range (window text (startIndex st))) as R.
    destruct (loop_body_cases text st) as [(_ & _ & ->)|([F|F] & _)]; [|lia|lia].
    pose proof (slice_length_le text (startIndex st) (startIndex st + chunkSize)) as W.
    unfold cut_after. fold (window text (startIndex st)) in W.
    set (b := lastBreak (window text (startIndex st))) in *.
    rewrite (slice_prefix text (startIndex st) (startIndex st + b + 1)
               (startIndex st + chunkSize))
      by (unfold chunkSize, overlap in *; lia).
    fold (window text (startIndex st)).
    replace (startIndex st + b + 1 - startIndex st) with (b + 1) by lia.
    reflexivity.
  - intros i L Hi. rewrite <- (lastBreak_is _ _ L) in *.
    destruct (loop_body_cases text st) as [(_ & F & _)|(_ & ->)]; [lia|reflexivity].
  - intros N. pose proof (lastBreak_none _ N) as E.
    destruct (loop_body_cases text st) as [(_ & F & _)|(_ & ->)]; [|reflexivity].
    unfold chunkSize, overlap in *. lia.
  - destruct (loop_body_cases text st) as [(F & _)|(_ & ->)]; [lia|reflexivity].
Qed.

Lemma sentence_break_rule_witness :
  0 <= startIndex initial /\
  (startIndex initial + chunkSize < length period_at_900 ->
   (forall i, last_sentence_end (window period_at_900 (startIndex initial)) i ->
      chunkSize - overlap < i ->
      loop_body period_at_900 initial =
        {| startIndex := startIndex initial + i + 1 - overlap;
           chunks := chunks initial ++
                     [trim (cut_after (window period_at_900 (startIndex initial)) i)] |}) /\
   (forall i, last_sentence_end (window period_at_900 (startIndex initial)) i ->
      i <= chunkSize - overlap ->
      loop_body period_at_900 initial =
        {| startIndex := startIndex initial + chunkSize - overlap;
           chunks := chunks initial ++ [trim (window period_at_900 (startIndex initial))] |}) /\
   (no_sentence_end (window period_at_900 (startIndex initial)) ->
      loop_body period_at_900 initial =
        {| startIndex := startIndex initial + chunkSize - overlap;
           chunks := chunks initial ++ [trim (window period_at_900 (startIndex initial))] |})) /\
  (length period_at_900 <= startIndex initial + chunkSize ->
   loop_body period_at_900 initial =
     {| startIndex := startIndex initial + chunkSize - overlap;
        chunks := chunks initial ++ [trim (window period_at_900 (startIndex initial))] |}).
Proof.
  assert (0 <= startIndex initial) as H by (cbn; lia).
  split; [exact H|]. apply (sentence_break_rule period_at_900 initial). exact H.
Defined.

(** The window of [period_at_900] is cut after index 900: a chunk of 901
    characters, the next window starting at 701. *)
Example sentence_break_taken :
  last_sentence_end (window period_at_900 0) 900 /\
  loop_body period_at_900 initial =
    {| startIndex := 701; chunks := [letters 900 ++ [period]] |}.
Proof.
  split; [|vm_compute; reflexivity].
  destruct (lastBreak_spec (window period_at_900 0)) as [[E _]|[_ L]].
  - vm_compute in E. discriminate.
  - replace 900 with (lastBreak (window period_at_900 0)) by (vm_compute; reflexivity).
    exact L.
Qed.

(** C3 as the specification words it fails at the first of the last 200
    characters of a window: the last terminator of the window of
    [period_at_800] stands at index 800, which is within the last [overlap]
    characters of the 1000, and still the body keeps the raw window instead
    of cutting after it. *)
Lemma sentence_break_counterexample :
  startIndex initial + chunkSize < length period_at_800 /\
  last_sentence_end (window period_at_800 (startIndex initial)) 800 /\
  length (window period_at_800 (startIndex initial)) - overlap <= 800 /\
  loop_body period_at_800 initial <>
    {| startIndex := startIndex initial + 800 + 1 - overlap;
       chunks := chunks initial ++
                 [trim (cut_after (window period_at_800 (startIndex initial)) 800)] |} /\
  loop_body period_at_800 initial =
    {| startIndex := 800; chunks := [letters 800 ++ [period] ++ letters 199] |}.
Proof.
  split; [vm_compute; reflexivity|]. split.
  { destruct (lastBreak_spec (window period_at_800 (startIndex initial))) as [[E _]|[_ L]].
    - vm_compute in E. discriminate.
    - replace 800 with (lastBreak (window period_at_800 (startIndex initial)))
        by (vm_compute; reflexivity).
      exact L. }
  split; [vm_compute; discriminate|].
  split; [|vm_compute; reflexivity].
  intros E. apply (f_equal Chunker.startIndex) in E. vm_compute in E. discriminate.
Qed.

End ChunkerSpec.

(** ** Facts about the pipelines *)

Module PipelineFacts.

Import Chunker Pipeline.

#[local] Open Scope async_scope.

Lemma after_nil (w : World) : after w [] = w.
Proof. destruct w. unfold after. cbn. rewrite app_nil_r. reflexivity. Qed.

Lemma log_is_after (e : event) (w : World) : log e w = after w [e].
Proof. reflexivity. Qed.

Lemma after_after (w : World) (es fs : list event) :
  after (after w es) fs = after w (es ++ fs).
Proof. unfold after. cbn. rewrite app_assoc. reflexivity. Qed.

Lemma after_log (w : World) (e : event) (es : list event) :
  after (log e w) es = after w (e :: es).
Proof. rewrite log_is_after, after_after. reflexivity. Qed.

Lemma after_one (w : World) (a : event) : after w [a] = log a w.
Proof. reflexivity. Qed.

Lemma after_two (w : World) (a b : event) : after w [a; b] = log b (log a w).
Proof. rewrite <- after_log. reflexivity. Qed.

Lemma same_tables_refl (w : World) : same_tables w w.
Proof. split; reflexivity. Qed.

Lemma same_tables_trans (w1 w2 w3 : World) :
  same_tables w1 w2 -> same_tables w2 w3 -> same_tables w1 w3.
Proof. intros [A B] [C D]. split; congruence. Qed.

Lemma same_tables_after (w : World) (es : list event) : same_tables w (after w es).
Proof. split; reflexivity. Qed.

(** *** Computations that touch nothing but the trace *)

Lemma only_logs_tables {A} (m : M A) (w w' : World) (r : Error + A) :
  only_logs m -> m w = (w', r) -> same_tables w w'.
Proof. intros H E. destruct (H w w' r E) as [es ->]. apply same_tables_after. Qed.

Lemma only_logs_ret {A} (a : A) : only_logs (ret a).
Proof. intros w w' r E. injection E as <- _. exists []. symmetry. apply after_nil. Qed.

Lemma only_logs_throw {A} (e : Error) : only_logs (@throw A e).
Proof. intros w w' r E. injection E as <- _. exists []. symmetry. apply after_nil. Qed.

Lemma only_logs_await {A} (e : event) (f : World -> Error + A) : only_logs (await e f).
Proof. intros w w' r E. injection E as <- _. exists [e]. reflexivity. Qed.

Lemma only_logs_perform {A} (e : event) (f : World -> A) : only_logs (perform e f).
Proof. intros w w' r E. injection E as <- _. exists [e]. reflexivity. Qed.

Lemma only_logs_bind {A B} (m : M A) (k : A -> M B) :
  only_logs m -> (forall a, only_logs (k a)) -> only_logs (bind m k).
Proof.
  intros Hm Hk w w' r. unfold bind. destruct (m w) as [w1 [e|a]] eqn:E; intros R.
  - injection R as <- _. eapply Hm, E.
  - destruct (Hm _ _ _ E) as [es ->]. destruct (Hk _ _ _ _ R) as [fs ->].
    exists (es ++ fs). apply after_after.
Qed.

Lemma only_logs_try_catch {A} (m : M A) (h : Error -> M A) :
  only_logs m -> (forall e, only_logs (h e)) -> only_logs (try_catch m h).
Proof.
  intros Hm Hh w w' r. unfold try_catch. destruct (m w) as [w1 [e|a]] eqn:E; intros R.
  - destruct (Hm _ _ _ E) as [es ->]. destruct (Hh _ _ _ _ R) as [fs ->].
    exists (es ++ fs). apply after_after.
  - injection R as <- _. eapply Hm, E.
Qed.

Create HintDb logs.
#[local] Hint Resolve only_logs_ret only_logs_throw only_logs_await only_logs_perform
  only_logs_bind only_logs_try_catch : logs.

(** Closes a goal that asks for the answer of a handler, the events it
    added to the trace and one of them. *)
Ltac trace_goal :=
  eexists _, _, _; split; [reflexivity|];
  cbn [trace log after document_inserted chunks_inserted];
  split; [rewrite <- ?app_assoc; reflexivity|];
  rewrite ?in_app_iff; cbn [In]; tauto.

Ltac logs :=
  unfold rethrow;
  repeat match goal with
         | |- only_logs (bind _ _) => apply only_logs_bind
         | |- only_logs (try_catch _ _) => apply only_logs_try_catch
         | |- forall _, only_logs _ => intro
         | |- only_logs (if ?c then _ else _) => destruct c
         end;
  auto with logs.

Lemma only_logs_parseFile (srv : Services) (file : File) : only_logs (parseFile srv file).
Proof.
  unfold parseFile. logs.
Qed.

Lemma only_logs_getEmbeddings_loop (srv : Services) (chunks : list jsstring) :
  forall acc, only_logs (getEmbeddings_loop srv chunks acc).
Proof.
  induction chunks as [|c rest IH]; intros acc; cbn [getEmbeddings_loop].
  - logs.
  - apply only_logs_bind; [unfold openai_embedding; logs|auto].
Qed.

Lemma only_logs_getEmbeddings (srv : Services) (chunks : list jsstring) :
  only_logs (getEmbeddings srv chunks).
Proof.
  unfold getEmbeddings. apply only_logs_try_catch; [apply only_logs_getEmbeddings_loop|logs].
Qed.

Lemma only_logs_unlink (srv : Services) (p : jsstring) : only_logs (unlink srv p).
Proof. unfold unlink. logs. Qed.

Lemma only_logs_console_error (e : Error) : only_logs (console_error e).
Proof. unfold console_error. logs. Qed.

(** *** The loop of [getEmbeddings], one chunk at a time *)

Lemma getEmbeddings_loop_cons (srv : Services) (c : jsstring) (rest : list jsstring)
  (acc : list embedding) (w : World) :
  getEmbeddings_loop srv (c :: rest) acc w =
  match embeddings_create srv w c with
  | inr e => getEmbeddings_loop srv rest (acc ++ [e]) (log (embed_event c) w)
  | inl err => (log (embed_event c) w, inl err)
  end.
Proof.
  cbn [getEmbeddings_loop]. unfold bind, openai_embedding, await.
  destruct (embeddings_create srv w c); reflexivity.
Qed.

(** When the loop returns, it has made one call per chunk, in order, and
    the vector at each index is the answer to the call for the chunk at that
    index. *)
Lemma getEmbeddings_loop_returns (srv : Services) (chunks : list jsstring) :
  forall acc w w' embs,
    getEmbeddings_loop srv chunks acc w = (w', inr embs) ->
    w' = after w (map embed_event chunks) /\
    exists new,
      embs = acc ++ new /\ List.length new = List.length chunks /\
      forall i chunk, nth_error chunks i = Some chunk ->
        exists e, nth_error new i = Some e /\
          embeddings_create srv (after w (map embed_event (firstn i chunks))) chunk = inr e.
Proof.
  induction chunks as [|c rest IH]; intros acc w w' embs.
  - cbn. intros E. injection E as <- <-. split; [symmetry; apply after_nil|].
    exists []. rewrite app_nil_r. repeat split. intros [|i] chunk; discriminate.
  - rewrite getEmbeddings_loop_cons.
    destruct (embeddings_create srv w c) as [err|e] eqn:Ec; [discriminate|].
    intros E. apply IH in E. destruct E as (-> & new & -> & Hlen & Hnth).
    split; [apply after_log|].
    exists (e :: new). rewrite <- app_assoc. repeat split; [cbn; congruence|].
    intros [|i] chunk Hi; cbn in Hi.
    + injection Hi as <-. exists e. split; [reflexivity|].
      cbn [firstn map]. rewrite after_nil. exact Ec.
    + destruct (Hnth i chunk Hi) as (e' & He' & Hc). exists e'. split; [exact He'|].
      cbn [firstn map]. rewrite <- after_log. exact Hc.
Qed.


End PipelineFacts.

(** ** What the specification says of the pipelines *)

Module PipelineSpec.

Import Chunker Pipeline PipelineFacts Samples.

#[local] Open Scope async_scope.

(** Whatever the [try] block of the Slack handler returns is sent with
    status 200. *)
Lemma slack_pipeline_status (srv : Services) (text : option jsstring) (w w1 : World)
  (r : Response) :
  slack_pipeline srv text w = (w1, inr r) -> status r = 200.
Proof.
  unfold slack_pipeline. destruct text as [t|]; [destruct (falsy (Some t))|];
    try (intros E; injection E as _ <-; reflexivity).
  unfold bind. destruct (getEmbedding srv t w) as [w2 [e|emb]]; [discriminate|].
  destruct (getSimilarChunks srv emb default_limit w2) as [w3 [e|found]]; [discriminate|].
  destruct (no_chunks found); [intros E; injection E as _ <-; reflexivity|].
  destruct (generateResponse srv t (rows_of found) w3) as [w4 [e|answer]]; [discriminate|].
  intros E; injection E as _ <-; reflexivity.
Qed.

(** C5: the Slack handler always answers, with status 200; and when
    anything inside its [try] block throws, the body is an [ephemeral]
    message whose text contains ["Error:"]. *)
Theorem slack_failure_is_ephemeral (srv : Services) (text : option jsstring) (w : World) :
  (exists w' r, slack_ask srv text w = (w', inr r) /\ status r = 200) /\
  (forall w1 error,
     slack_pipeline srv text w = (w1, inl error) ->
     exists w' r t,
       slack_ask srv text w = (w', inr r) /\
       status r = 200 /\
       body_field "response_type" r = Some (JString (lit "ephemeral")) /\
       body_field "text" r = Some (JString t) /\
       includes t (lit "Error:")).
Proof.
  unfold slack_ask, try_catch. split.
  - destruct (slack_pipeline srv text w) as [w1 [e|r]] eqn:E.
    + eexists _, _. split; reflexivity.
    + exists w1, r. split; [reflexivity|]. eapply slack_pipeline_status, E.
  - intros w1 error ->. eexists _, _, _. split; [reflexivity|].
    repeat split. exists [], (32%N :: message error). reflexivity.
Qed.

(** The three calls of the Slack pipeline: when the embedding call, the
    similarity search, or the completion call fails, the [try] block
    throws. *)
Lemma slack_pipeline_throws (srv : Services) (t : jsstring) (w : World) :
  truthy t = true ->
  (forall err, embeddings_create srv w t = inl err ->
     exists w1 error, slack_pipeline srv (Some t) w = (w1, inl error)) /\
  (forall emb err,
     embeddings_create srv w t = inr emb ->
     rpc_match_chunks srv (after w [embed_event t]) emb default_limit = inl err ->
     exists w1 error, slack_pipeline srv (Some t) w = (w1, inl error)) /\
  (forall emb found err,
     embeddings_create srv w t = inr emb ->
     rpc_match_chunks srv (after w [embed_event t]) emb default_limit = inr found ->
     no_chunks found = false ->
     chat_completions_create srv
       (after w [embed_event t; RpcMatchChunks emb default_limit])
       (completion_of t (rows_of found)) = inl err ->
     exists w1 error, slack_pipeline srv (Some t) w = (w1, inl error)).
Proof.
  intros T. unfold slack_pipeline, falsy. rewrite T. cbn [negb].
  unfold bind, getEmbedding, getSimilarChunks, generateResponse, openai_embedding,
    try_catch, await, rethrow, throw, ret.
  repeat split.
  - intros err ->. eexists _, _. reflexivity.
  - intros emb err -> E. rewrite after_one in E. unfold embed_event in E. rewrite E.
    eexists _, _. reflexivity.
  - intros emb found err -> E N C. rewrite after_one in E. rewrite after_two in C.
    unfold embed_event in *. rewrite E, N. unfold bind. rewrite C.
    eexists _, _. reflexivity.
Qed.

Lemma slack_failure_is_ephemeral_witness :
  slack_pipeline (services false true true true true true) (Some (lit "hi")) empty_world =
    (after empty_world [embed_event (lit "hi")],
     inl (mkError (lit "Error generating embedding: 429 rate limit"))) /\
  exists w' r t,
    slack_ask (services false true true true true true) (Some (lit "hi")) empty_world
      = (w', inr r) /\
    status r = 200 /\
    body_field "response_type" r = Some (JString (lit "ephemeral")) /\
    body_field "text" r = Some (JString t) /\
    includes t (lit "Error:").
Proof.
  split; [reflexivity|].
  exact (proj2 (slack_failure_is_ephemeral (services false true true true true true)
                  (Some (lit "hi")) empty_world) _ _ eq_refl).
Defined.

(** C6: when the question is given, its embedding is computed and the
    similarity search answers with no chunk ([null] or an empty array),
    [/api/ask] answers 200 with the fixed sentence and an empty [chunks]
    array; the only calls made are the embedding call and the search, so the
    completion service is not called. *)
Theorem ask_without_chunks (srv : Services) (q : jsstring) (w : World)
  (emb : embedding) (found : option (list match_row)) :
  truthy q = true ->
  embeddings_create srv w q = inr emb ->
  rpc_match_chunks srv (after w [embed_event q]) emb default_limit = inr found ->
  no_chunks found = true ->
  ask srv (Some q) w =
    (after w [embed_event q; RpcMatchChunks emb default_limit],
     inr {| status := 200;
            body := JObject [prop "answer" (JString no_information);
                             prop "chunks" (JArray [])] |}) /\
  (forall w' r request,
     ask srv (Some q) w = (w', r) ->
     In (ChatCompletionsCreate request) (trace w') ->
     In (ChatCompletionsCreate request) (trace w)).
Proof.
  intros T E S N.
  assert (ask srv (Some q) w =
            (after w [embed_event q; RpcMatchChunks emb default_limit],
             inr {| status := 200;
                    body := JObject [prop "answer" (JString no_information);
                                     prop "chunks" (JArray [])] |})) as R.
  { rewrite after_one in S. rewrite after_two.
    unfold ask, ask_pipeline, falsy. rewrite T. cbn [negb].
    unfold try_catch, bind, getEmbedding, getSimilarChunks, openai_embedding,
      try_catch, await, rethrow, throw, ret.
    rewrite E. unfold embed_event in *. rewrite S, N. reflexivity. }
  split; [exact R|].
  intros w' r request R'. rewrite R in R'. injection R' as <- _. cbn [after trace].
  intros H. apply in_app_or in H. destruct H as [H|[H|[H|[]]]];
    [exact H|discriminate H|discriminate H].
Qed.

Lemma ask_without_chunks_witness :
  truthy (lit "hi") = true /\
  ask nothing_stored (Some (lit "hi")) empty_world =
    (after empty_world [embed_event (lit "hi"); RpcMatchChunks [1 # 2; 1 # 4] default_limit],
     inr {| status := 200;
            body := JObject [prop "answer" (JString no_information);
                             prop "chunks" (JArray [])] |}) /\
  (forall w' r request,
     ask nothing_stored (Some (lit "hi")) empty_world = (w', r) ->
     In (ChatCompletionsCreate request) (trace w') ->
     In (ChatCompletionsCreate request) (trace empty_world)).
Proof.
  split; [reflexivity|].
  exact (ask_without_chunks nothing_stored (lit "hi") empty_world [1 # 2; 1 # 4] (Some [])
           eq_refl eq_refl eq_refl eq_refl).
Defined.

(** The request of [generateResponse]: whatever the question and the
    contexts, it carries the literals of the source, temperature 0.7 and
    500 tokens at most, and it is the one call [generateResponse] makes.
    Whether 0.7 is a low temperature is not something the program says. *)
Lemma completion_request_sent (srv : Services) (question : jsstring)
  (contexts : list match_row) (w : World) :
  temperature (completion_of question contexts) = 7 # 10 /\
  max_tokens (completion_of question contexts) = 500 /\
  exists outcome,
    generateResponse srv question contexts w =
      (after w [ChatCompletionsCreate (completion_of question contexts)], outcome).
Proof.
  repeat split.
  unfold generateResponse, try_catch, bind, await, rethrow, throw, ret.
  rewrite after_one.
  destruct (chat_completions_create srv w (completion_of question contexts));
    eexists; reflexivity.
Qed.



(** The upload handler from the store step on: what it does once the file
    is parsed and the embeddings are there. *)
Lemma upload_from_store (srv : Services) (file : File) (w w1 w2 : World)
  (text : jsstring) (embs : list embedding) :
  parseFile srv file w = (w1, inr text) ->
  getEmbeddings srv (chunkText text) w1 = (w2, inr embs) ->
  same_tables w w2 /\
  upload srv (Some file) w =
    try_catch
      (inserted <- insert_document srv (filename file) (originalname file)
                     (date_toISOString srv w2) ;;
       match inserted with
       | inl documentError => rethrow "Error inserting document: " documentError
       | inr document =>
           chunksError <- insert_chunks srv
                            (chunksToInsert document (chunkText text) embs) ;;
           match chunksError with
           | Some chunksError => rethrow "Error inserting chunks: " chunksError
           | None =>
               unlink srv (path file) ;;;
               ret (res_json (JObject
                 [prop "message" (JString (lit "File processed and stored successfully"));
                  prop "document" (JObject
                     [prop "id" (JString (id document));
                      prop "filename" (JString (doc_filename document));
                      prop "original_name" (JString (original_name document));
                      prop "upload_date" (JString (upload_date document))]);
                  prop "chunks_count"
                    (JInt (Z.of_nat (List.length (chunkText text))))]))
           end
       end)
      (fun error =>
         try_catch (unlink srv (path file)) console_error ;;;
         ret (res_status_json 500 (JObject [prop "error" (JString (message error))])))
      w2.
Proof.
  intros P G. split.
  - eapply same_tables_trans;
      [eapply only_logs_tables; [apply only_logs_parseFile|exact P]|].
    eapply only_logs_tables; [apply only_logs_getEmbeddings|exact G].
  - unfold upload, upload_pipeline, try_catch. unfold bind at 1. rewrite P.
    unfold bind at 1. rewrite G. unfold bind at 1. reflexivity.
Qed.

(** C2, as amended: the store step is two inserts with nothing to undo the
    first.  Once the file is parsed and embedded: when the document insert
    fails, neither table changes; when it succeeds and the chunk insert
    fails, the document row stays recorded without any of its chunks, and
    the answer is a 500; when both succeed, the document row and all its
    chunk rows are recorded. *)
Theorem store_in_two_steps (srv : Services) (file : File) (w w1 w2 : World)
  (text : jsstring) (embs : list embedding) :
  parseFile srv file w = (w1, inr text) ->
  getEmbeddings srv (chunkText text) w1 = (w2, inr embs) ->
  (forall err,
     documents_insert srv w2 (filename file) (originalname file)
       (date_toISOString srv w2) = inl err ->
     exists w',
       upload srv (Some file) w =
         (w', inr {| status := 500;
                     body := JObject [prop "error"
                       (JString (lit "Error inserting document: " ++ message err))] |}) /\
       same_tables w w') /\
  (forall doc,
     documents_insert srv w2 (filename file) (originalname file)
       (date_toISOString srv w2) = inr doc ->
     (forall err,
        chunks_insert srv (document_inserted w2 file (date_toISOString srv w2) doc)
          (chunksToInsert doc (chunkText text) embs) = Some err ->
        exists w',
          upload srv (Some file) w =
            (w', inr {| status := 500;
                        body := JObject [prop "error"
                          (JString (lit "Error inserting chunks: " ++ message err))] |}) /\
          documents w' = documents w ++ [doc] /\
          chunks_table w' = chunks_table w) /\
     (chunks_insert srv (document_inserted w2 file (date_toISOString srv w2) doc)
        (chunksToInsert doc (chunkText text) embs) = None ->
      exists w' r,
        upload srv (Some file) w = (w', inr r) /\
        documents w' = documents w ++ [doc] /\
        chunks_table w' =
          chunks_table w ++ chunksToInsert doc (chunkText text) embs)).
Proof.
  intros P G. destruct (upload_from_store srv file w w1 w2 text embs P G) as [[Td Tc] ->].
  unfold try_catch, bind, insert_document, insert_chunks, rethrow, throw, unlink, await,
    console_error, perform, ret; cbv beta.
  destruct (documents_insert srv w2 (filename file) (originalname file)
              (date_toISOString srv w2)) as [derr|document] eqn:D; cbv beta iota.
  - split; [intros err [= <-]|intros doc [=]].
    destruct (fs_unlink srv _ (path file));
      (eexists; split; [reflexivity|split; cbn; assumption]).
  - split; [intros err [=]|intros doc [= <-]].
    change {| documents := documents (log (InsertDocument (filename file) (originalname file)
                                            (date_toISOString srv w2)) w2) ++ [document];
              chunks_table := chunks_table (log (InsertDocument (filename file)
                                            (originalname file) (date_toISOString srv w2)) w2);
              trace := trace (log (InsertDocument (filename file) (originalname file)
                                     (date_toISOString srv w2)) w2) |}
      with (document_inserted w2 file (date_toISOString srv w2) document).
    destruct (chunks_insert srv (document_inserted w2 file (date_toISOString srv w2) document)
                (chunksToInsert document (chunkText text) embs)) as [cerr|] eqn:C;
      cbv beta iota.
    + split; [intros err [= <-]|intros [=]].
      destruct (fs_unlink srv _ (path file));
        (eexists; split; [reflexivity|split; cbn; congruence]).
    + split; [intros err [=]|intros _].
      destruct (fs_unlink srv _ (path file)); cbv beta iota.
      * destruct (fs_unlink srv _ (path file));
          (eexists _, _; split; [reflexivity|split; cbn; congruence]).
      * eexists _, _; split; [reflexivity|split; cbn; congruence].
Qed.

Lemma store_in_two_steps_witness :
  exists w',
    upload chunk_insert_fails (Some notes_txt) empty_world =
      (w', inr {| status := 500;
                  body := JObject [prop "error"
                    (JString (lit "Error inserting chunks: " ++
                              lit "expected 1536 dimensions, not 2"))] |}) /\
    documents w' = documents empty_world ++ [stored_document] /\
    chunks_table w' = chunks_table empty_world.
Proof.
  exact (proj1 (proj2 (store_in_two_steps chunk_insert_fails notes_txt empty_world
                         (after empty_world [ReadFileUtf8 (path notes_txt)])
                         (after empty_world
                            [ReadFileUtf8 (path notes_txt);
                             embed_event (lit "Slack bots answer questions.")])
                         (lit "Slack bots answer questions. ")
                         [[1 # 2; 1 # 4]] eq_refl eq_refl)
                      stored_document eq_refl)
               (failure "expected 1536 dimensions, not 2") eq_refl).
Defined.

(** C2 as the specification words it fails when the chunk insert is refused
    after the document insert went through: the handler answers 500, the
    document row is in [documents] and none of its chunk rows is in
    [chunks], so the store was neither done nor undone. *)
Lemma store_not_atomic :
  snd (upload chunk_insert_fails (Some notes_txt) empty_world) =
    inr {| status := 500;
           body := JObject [prop "error"
             (JString (lit "Error inserting chunks: expected 1536 dimensions, not 2"))] |} /\
  documents (fst (upload chunk_insert_fails (Some notes_txt) empty_world)) =
    [stored_document] /\
  chunks_table (fst (upload chunk_insert_fails (Some notes_txt) empty_world)) = [] /\
  ~ atomic_store empty_world
      (fst (upload chunk_insert_fails (Some notes_txt) empty_world))
      stored_document stored_rows.
Proof.
  split; [vm_compute; reflexivity|].
  split; [vm_compute; reflexivity|].
  split; [vm_compute; reflexivity|].
  intros [[_ C]|[D _]]; vm_compute in *; discriminate.
Qed.

(** The rows of [store_not_atomic] are the ones the handler tried to
    insert. *)
Example stored_rows_attempted :
  In (InsertChunks stored_rows)
     (trace (fst (upload chunk_insert_fails (Some notes_txt) empty_world))).
Proof. vm_compute. tauto. Qed.

(** The half of C4 that the code keeps: on every path of a request that
    carries a file the handler answers, and it has called [unlink] on the
    uploaded file. *)
Lemma upload_attempts_unlink (srv : Services) (file : File) (w : World) :
  exists w' r es,
    upload srv (Some file) w = (w', inr r) /\
    trace w' = trace w ++ es /\
    In (Unlink (path file)) es.
Proof.
  unfold upload, try_catch, upload_pipeline. unfold bind at 1.
  destruct (parseFile srv file w) as [w1 [e|text]] eqn:P;
    destruct (only_logs_parseFile srv file _ _ _ P) as [es1 ->].
  { unfold bind, unlink, await, console_error, perform, ret; cbv beta.
    destruct (fs_unlink srv _ (path file)); trace_goal. }
  unfold bind at 1.
  destruct (getEmbeddings srv (chunkText text) (after w es1)) as [w2 [e|embs]] eqn:G;
    destruct (only_logs_getEmbeddings srv _ _ _ _ G) as [es2 ->].
  { unfold bind, unlink, await, console_error, perform, ret; cbv beta.
    destruct (fs_unlink srv _ (path file)); trace_goal. }
  unfold bind, insert_document, insert_chunks, rethrow, throw, unlink, await,
    console_error, perform, ret; cbv beta.
  destruct (documents_insert srv _ _ _ _) as [derr|doc]; cbv beta iota.
  { destruct (fs_unlink srv _ (path file)); trace_goal. }
  destruct (chunks_insert srv _ _) as [cerr|]; cbv beta iota.
  { destruct (fs_unlink srv _ (path file)); trace_goal. }
  destruct (fs_unlink srv _ (path file)) as [uerr|]; cbv beta iota.
  - destruct (fs_unlink srv _ (path file)); trace_goal.
  - trace_goal.
Qed.

(** In the [catch] block a failing removal is logged and the answer still
    carries the error that was caught. *)
Lemma cleanup_failure_after_error_is_logged (srv : Services) (file : File)
  (w w1 : World) (error uerr : Error) :
  upload_pipeline srv file w = (w1, inl error) ->
  fs_unlink srv w1 (path file) = Some uerr ->
  upload srv (Some file) w =
    (after w1 [Unlink (path file); ConsoleError (message uerr)],
     inr {| status := 500;
            body := JObject [prop "error" (JString (message error))] |}).
Proof.
  intros E U. unfold upload, try_catch. rewrite E.
  unfold bind, unlink, await, console_error, perform, ret. rewrite U.
  rewrite after_two. reflexivity.
Qed.

(** C4, where the code parts from it: when every stage up to the chunk
    insert has succeeded and the removal of the uploaded file fails, the
    error of the removal is what the handler answers, with status 500,
    although the document and its chunks are stored. *)
Theorem cleanup_failure_is_surfaced (srv : Services) (file : File) (w w1 w2 : World)
  (text : jsstring) (embs : list embedding) (doc : document_row) (err : Error) :
  parseFile srv file w = (w1, inr text) ->
  getEmbeddings srv (chunkText text) w1 = (w2, inr embs) ->
  documents_insert srv w2 (filename file) (originalname file)
    (date_toISOString srv w2) = inr doc ->
  chunks_insert srv (document_inserted w2 file (date_toISOString srv w2) doc)
    (chunksToInsert doc (chunkText text) embs) = None ->
  fs_unlink srv
    (chunks_inserted (document_inserted w2 file (date_toISOString srv w2) doc)
       (chunksToInsert doc (chunkText text) embs))
    (path file) = Some err ->
  exists w',
    upload srv (Some file) w =
      (w', inr {| status := 500;
                  body := JObject [prop "error" (JString (message err))] |}) /\
    documents w' = documents w ++ [doc] /\
    chunks_table w' = chunks_table w ++ chunksToInsert doc (chunkText text) embs.
Proof.
  intros P G D C U.
  destruct (upload_from_store srv file w w1 w2 text embs P G) as [[Td Tc] ->].
  unfold try_catch, bind, insert_document, insert_chunks, rethrow, throw, unlink, await,
    console_error, perform, ret; cbv beta.
  rewrite D; cbv beta iota.
  change {| documents := documents (log (InsertDocument (filename file) (originalname file)
                                          (date_toISOString srv w2)) w2) ++ [doc];
            chunks_table := chunks_table (log (InsertDocument (filename file)
                                          (originalname file) (date_toISOString srv w2)) w2);
            trace := trace (log (InsertDocument (filename file) (originalname file)
                                   (date_toISOString srv w2)) w2) |}
    with (document_inserted w2 file (date_toISOString srv w2) doc).
  rewrite C; cbv beta iota.
  change {| documents :=
              documents (log (InsertChunks (chunksToInsert doc (chunkText text) embs))
                           (document_inserted w2 file (date_toISOString srv w2) doc));
            chunks_table :=
              chunks_table (log (InsertChunks (chunksToInsert doc (chunkText text) embs))
                              (document_inserted w2 file (date_toISOString srv w2) doc))
              ++ chunksToInsert doc (chunkText text) embs;
            trace :=
              trace (log (InsertChunks (chunksToInsert doc (chunkText text) embs))
                       (document_inserted w2 file (date_toISOString srv w2) doc)) |}
    with (chunks_inserted (document_inserted w2 file (date_toISOString srv w2) doc)
            (chunksToInsert doc (chunkText text) embs)).
  rewrite U; cbv beta iota. clear U.
  destruct (fs_unlink srv _ (path file));
    (eexists; split; [reflexivity|split; cbn; congruence]).
Qed.

Lemma cleanup_failure_is_surfaced_witness :
  exists w',
    upload unlink_fails (Some notes_txt) empty_world =
      (w', inr {| status := 500;
                  body := JObject [prop "error"
                    (JString (lit "EPERM: operation not permitted, unlink"))] |}) /\
    documents w' = documents empty_world ++ [stored_document] /\
    chunks_table w' =
      chunks_table empty_world ++
      chunksToInsert stored_document
        (chunkText (lit "Slack bots answer questions. ")) [[1 # 2; 1 # 4]].
Proof.
  exact (cleanup_failure_is_surfaced unlink_fails notes_txt empty_world
           (after empty_world [ReadFileUtf8 (path notes_txt)])
           (after empty_world
              [ReadFileUtf8 (path notes_txt);
               embed_event (lit "Slack bots answer questions.")])
           (lit "Slack bots answer questions. ")
           [[1 # 2; 1 # 4]] stored_document
           (failure "EPERM: operation not permitted, unlink")
           eq_refl eq_refl eq_refl eq_refl eq_refl).
Defined.

End PipelineSpec.

(** ** More about the chunker *)

Module ChunkerMore.

Import Chunker JSFacts ChunkerFacts Windows.

(** The body reads [chunks] only to push onto it. *)
Lemma loop_body_window (text : jsstring) (st : loop_state) :
  loop_body text st =
    {| startIndex := next_start text (startIndex st);
       chunks := chunks st ++ [chunk_of text (startIndex st, end_of text (startIndex st))] |}.
Proof.
  unfold chunk_of, end_of, next_start. cbn [fst snd].
  destruct (loop_body_cases text st) as [(I & B & ->)|(C & ->)];
  destruct (loop_body_cases text {| startIndex := startIndex st; chunks := [] |})
    as [(I' & B' & ->)|(C' & ->)]; cbn [startIndex chunks] in *.
  - rewrite Z.sub_add. reflexivity.
  - exfalso. destruct C' as [C'|C']; lia.
  - exfalso. destruct C as [C|C]; lia.
  - rewrite Z.sub_add. reflexivity.
Qed.

Lemma next_start_advance (text : jsstring) (start : Z) :
  start + 602 <= next_start text start <= start + 800.
Proof.
  unfold next_start.
  apply (loop_body_advance text {| startIndex := start; chunks := [] |}).
Qed.

Lemma end_of_bounds (text : jsstring) (start : Z) :
  start + 802 <= end_of text start <= start + chunkSize.
Proof.
  pose proof (next_start_advance text start).
  unfold end_of, overlap, chunkSize. lia.
Qed.

(** The chunks the loop pushes are the chunks of its windows. *)
Lemma while_loop_windows (text : jsstring) (fuel : nat) :
  forall st st',
    while_loop fuel text st = Some st' ->
    chunks st' = chunks st ++ map (chunk_of text) (windows_from fuel text (startIndex st)).
Proof.
  induction fuel as [|fuel IH]; intros st st'; cbn [while_loop windows_from];
    unfold loop_cond; destruct (startIndex st <? length text); intros E;
    try discriminate; try (injection E as <-; cbn; rewrite app_nil_r; reflexivity).
  apply IH in E. rewrite E, loop_body_window. cbn [chunks startIndex map].
  rewrite <- app_assoc. reflexivity.
Qed.

Lemma chunkText_windows (text : jsstring) :
  chunkText text = map (chunk_of text) (windows text).
Proof.
  destruct (while_loop_exits text (List.length text) initial) as [st' E].
  { unfold length. cbn [initial startIndex]. lia. }
  unfold chunkText. rewrite E. apply while_loop_windows in E. exact E.
Qed.

Lemma windows_from_head (text : jsstring) (fuel : nat) (start : Z) (w : Z * Z) :
  nth_error (windows_from fuel text start) 0 = Some w -> fst w = start.
Proof.
  destruct fuel; cbn [windows_from]; destruct (start <? length text); cbn;
    intros E; try discriminate. injection E as <-. reflexivity.
Qed.

(** Every window begins inside the text and spans 802 to 1000 indices. *)
Lemma windows_from_spans (text : jsstring) (fuel : nat) :
  forall start,
    Forall (fun w => start <= fst w < length text /\
                     fst w + 802 <= snd w <= fst w + chunkSize)
           (windows_from fuel text start).
Proof.
  induction fuel as [|fuel IH]; intros start; cbn [windows_from];
    destruct (Z.ltb_spec start (length text)); try constructor.
  - cbn [fst snd]. pose proof (end_of_bounds text start). lia.
  - eapply Forall_impl; [|apply IH]. cbn beta. intros w [A B].
    pose proof (next_start_advance text start). lia.
Qed.

(** Each window begins [overlap] before the end of the one before it. *)
Lemma windows_from_chain (text : jsstring) (fuel : nat) :
  forall start i w w',
    nth_error (windows_from fuel text start) i = Some w ->
    nth_error (windows_from fuel text start) (S i) = Some w' ->
    fst w' = snd w - overlap.
Proof.
  induction fuel as [|fuel IH]; intros start i w w'; cbn [windows_from];
    destruct (start <? length text); try (destruct i; discriminate).
  destruct i as [|i]; cbn [nth_error].
  - intros E E'. injection E as <-. apply windows_from_head in E'.
    cbn [snd]. unfold end_of. lia.
  - apply IH.
Qed.

(** With enough fuel the windows leave no index of the text out. *)
Lemma windows_from_cover (text : jsstring) (fuel : nat) :
  forall start k,
    length text - start <= Z.of_nat fuel ->
    start <= k < length text ->
    exists w, In w (windows_from fuel text start) /\ fst w <= k < snd w.
Proof.
  induction fuel as [|fuel IH]; intros start k Hf Hk; [lia|].
  cbn [windows_from]. destruct (Z.ltb_spec start (length text)); [|lia].
  pose proof (next_start_advance text start) as A.
  destruct (Z.lt_ge_cases k (end_of text start)) as [L|G].
  - exists (start, end_of text start). split; [left; reflexivity|cbn; lia].
  - destruct (IH (next_start text start) k) as (w & Hw & Hin);
      [lia|unfold end_of, overlap in G; lia|].
    exists w. split; [right; exact Hw|exact Hin].
Qed.

Lemma windows_from_past (text : jsstring) (fuel : nat) (start : Z) :
  length text <= start -> windows_from fuel text start = [].
Proof.
  intros H. destruct fuel; cbn [windows_from];
    destruct (Z.ltb_spec start (length text)); try reflexivity; lia.
Qed.

(** The number of windows, counted from [start]. *)
Lemma windows_from_count (text : jsstring) (fuel : nat) :
  forall start,
    length text - start <= Z.of_nat fuel ->
    let n := Z.of_nat (List.length (windows_from fuel text start)) in
    length text - start <= 800 * n /\
    (start < length text -> 602 * (n - 1) < length text - start).
Proof.
  induction fuel as [|fuel IH]; intros start Hf; cbn [windows_from];
    destruct (Z.ltb_spec start (length text)); cbn zeta; cbn [List.length];
    try lia.
  pose proof (next_start_advance text start) as A.
  specialize (IH (next_start text start) ltac:(lia)). cbn zeta in IH.
  destruct IH as [U L]. split; [lia|]. intros _.
  destruct (Z.lt_ge_cases (next_start text start) (length text)) as [I|O].
  - specialize (L I). lia.
  - rewrite (windows_from_past text fuel _ O). cbn [List.length]. lia.
Qed.

(** *** What [trim] leaves *)

Lemma trimStart_head (s : jsstring) :
  trimStart s = [] \/ exists c r, trimStart s = c :: r /\ isWhiteSpace c = false.
Proof.
  induction s as [|c r IH]; cbn [trimStart]; [left; reflexivity|].
  destruct (isWhiteSpace c) eqn:W; [exact IH|].
  right. exists c, r. split; [reflexivity|exact W].
Qed.

Lemma trimStart_keeps (l : jsstring) (c : code_unit) (r : jsstring) :
  isWhiteSpace c = false -> trimStart (l ++ c :: r) = trimStart l ++ c :: r.
Proof.
  intros W. induction l as [|x l IH]; cbn [trimStart app]; [rewrite W; reflexivity|].
  destruct (isWhiteSpace x); [exact IH|reflexivity].
Qed.

Lemma trim_trimmed (s : jsstring) : trimmed (trim s).
Proof.
  unfold trim, trimEnd.
  destruct (trimStart_head s) as [->|(c & r & -> & W)]; [left; reflexivity|].
  right. cbn [rev]. rewrite (trimStart_keeps (rev r) c []) by exact W.
  split.
  - exists c, (rev (trimStart (rev r))). rewrite rev_app_distr. split; [reflexivity|exact W].
  - destruct (trimStart_head (rev r ++ [c])) as [E|(d & u & E & Wd)].
    + rewrite (trimStart_keeps (rev r) c []) in E by exact W.
      destruct (trimStart (rev r)); discriminate.
    + rewrite <- (trimStart_keeps (rev r) c []) by exact W. rewrite E.
      exists (rev u), d. split; [reflexivity|exact Wd].
Qed.

(** *** A window of a text without sentence terminator *)

Lemma char_at_slice (text : jsstring) (start end_ j : Z) (c : code_unit) :
  0 <= start ->
  char_at (slice text start end_) j = Some c -> char_at text (start + j) = Some c.
Proof.
  intros Hs. unfold char_at, slice; cbv zeta.
  destruct (Z.ltb_spec j 0); [discriminate|].
  destruct (Z.ltb_spec (start + j) 0); [lia|].
  destruct (Z.ltb_spec start 0); [lia|].
  rewrite nth_error_firstn. destruct (Nat.ltb _ _); [|discriminate].
  rewrite nth_error_skipn. intros E.
  assert (nth_error text (Z.to_nat (Z.min start (length text)) + Z.to_nat j) <> None)
    as N by congruence.
  apply nth_error_Some in N. rewrite <- E. f_equal.
  unfold length in *. set (n := List.length text) in *. lia.
Qed.

Lemma no_sentence_end_window (text : jsstring) (start : Z) :
  0 <= start -> no_sentence_end text -> no_sentence_end (window text start).
Proof.
  intros Hs N j c E. unfold window in E. apply char_at_slice in E; [|exact Hs].
  exact (N _ _ E).
Qed.

Lemma next_start_plain (text : jsstring) (start : Z) :
  0 <= start -> no_sentence_end text -> next_start text start = start + 800.
Proof.
  intros Hs N. unfold next_start.
  pose proof (lastBreak_none _ (no_sentence_end_window text start Hs N)) as B.
  destruct (loop_body_cases text {| startIndex := start; chunks := [] |})
    as [(_ & F & _)|(_ & ->)]; cbn [startIndex] in *.
  - unfold chunkSize, overlap in F. lia.
  - unfold chunkSize, overlap. lia.
Qed.

Lemma windows_from_plain (text : jsstring) (fuel : nat) :
  no_sentence_end text ->
  forall start,
    0 <= start ->
    length text - start <= Z.of_nat fuel ->
    windows_from fuel text start =
      map (fun i => (start + 800 * Z.of_nat i, start + 800 * Z.of_nat i + chunkSize))
          (seq 0 (Z.to_nat ((length text - start + 799) / 800))).
Proof.
  intros N. induction fuel as [|fuel IH]; intros start Hs Hf.
  - rewrite windows_from_past by lia.
    assert ((length text - start + 799) / 800 < 1)
      by (apply Z.div_lt_upper_bound; lia).
    replace (Z.to_nat ((length text - start + 799) / 800)) with 0%nat by lia.
    reflexivity.
  - destruct (Z.lt_ge_cases start (length text)) as [I|O].
    + cbn [windows_from]. destruct (Z.ltb_spec start (length text)); [|lia].
      unfold end_of. rewrite (next_start_plain text start Hs N).
      rewrite IH by lia.
      replace (length text - start + 799) with (length text - start - 1 + 1 * 800) by lia.
      rewrite Z.div_add by lia.
      assert (0 <= (length text - start - 1) / 800) by (apply Z.div_pos; lia).
      replace (Z.to_nat ((length text - start - 1) / 800 + 1))
        with (S (Z.to_nat ((length text - start - 1) / 800))) by lia.
      replace (length text - (start + 800) + 799) with (length text - start - 1) by lia.
      cbn [seq map]. f_equal.
      * unfold overlap, chunkSize. f_equal; lia.
      * rewrite <- seq_shift, map_map. apply map_ext. intros i. f_equal; lia.
    + rewrite windows_from_past by lia.
      assert ((length text - start + 799) / 800 < 1)
        by (apply Z.div_lt_upper_bound; lia).
      replace (Z.to_nat ((length text - start + 799) / 800)) with 0%nat by lia.
      reflexivity.
Qed.

(** A slice that reaches the end of the string is what is left after its
    start. *)
Lemma slice_to_end (s : jsstring) (start end_ : Z) :
  0 <= start -> length s <= end_ -> slice s start end_ = skipn (Z.to_nat start) s.
Proof.
  intros Hs He. pose proof (length_nonneg s) as Hn. unfold slice; cbv zeta.
  destruct (Z.ltb_spec start 0); [lia|]. destruct (Z.ltb_spec end_ 0); [lia|].
  rewrite (Z.min_r end_ (length s)) by lia.
  destruct (Z.le_ge_cases start (length s)) as [I|O].
  - rewrite (Z.min_l start (length s)) by lia.
    apply firstn_all2. rewrite length_skipn. unfold length in *.
    set (n := List.length s) in *. lia.
  - rewrite (Z.min_r start (length s)) by lia. rewrite Z.sub_diag. cbn [Z.max Z.to_nat firstn].
    symmetry. apply skipn_all2. unfold length in *. set (n := List.length s) in *. lia.
Qed.

(** *** Properties of [chunkText] *)

(** X1: the chunks are the trimmed slices of a run of windows that starts at
    index 0; every window begins inside the text and spans between 802 and
    1000 indices; each window begins exactly [overlap] before the end of the
    one before it; and every index of the text lies in some window, so no
    character is left out. *)
Theorem chunks_cover_text (text : jsstring) :
  exists ws,
    chunkText text = map (chunk_of text) ws /\
    (forall w, nth_error ws 0 = Some w -> fst w = 0) /\
    Forall (fun w => 0 <= fst w < length text /\
                     fst w + 802 <= snd w <= fst w + chunkSize) ws /\
    (forall i w w', nth_error ws i = Some w -> nth_error ws (S i) = Some w' ->
       fst w' = snd w - overlap) /\
    (forall k, 0 <= k < length text -> exists w, In w ws /\ fst w <= k < snd w).
Proof.
  exists (windows text). split; [apply chunkText_windows|]. unfold windows.
  split; [intros w; apply windows_from_head|].
  split; [apply windows_from_spans|].
  split; [apply windows_from_chain|].
  intros k Hk. apply windows_from_cover; [unfold length|]; lia.
Qed.

(** X2: a text of [n] characters gives at least [n / 800] chunks and, when
    it is not empty, fewer than [n / 602 + 1]: these are the numbers of
    calls the upload makes to the embedding service. *)
Theorem chunk_count_bounds (text : jsstring) :
  length text <= 800 * Z.of_nat (List.length (chunkText text)) /\
  (0 < length text ->
   602 * (Z.of_nat (List.length (chunkText text)) - 1) < length text).
Proof.
  rewrite chunkText_windows, length_map. unfold windows.
  pose proof (windows_from_count text (List.length text) 0) as C. cbn zeta in C.
  rewrite Z.sub_0_r in C. apply C. unfold length. lia.
Qed.

(** X3: only the empty text gives no chunk. *)
Theorem chunkText_empty_iff (text : jsstring) :
  chunkText text = [] <-> text = [].
Proof.
  split.
  - rewrite chunkText_windows. unfold windows. intros E.
    pose proof (windows_from_count text (List.length text) 0) as C. cbn zeta in C.
    destruct C as [U _]; [unfold length; lia|].
    apply (f_equal (@List.length _)) in E. rewrite length_map in E. rewrite E in U.
    destruct text; [reflexivity|]. unfold length in U. cbn in U. lia.
  - intros ->. reflexivity.
Qed.

(** X4: every chunk is trimmed: it is empty, or it begins and ends with a
    character that is not white space. *)
Theorem chunks_are_trimmed (text : jsstring) :
  Forall trimmed (chunkText text).
Proof.
  rewrite chunkText_windows. apply Forall_forall. intros c H.
  apply in_map_iff in H. destruct H as (w & <- & _). apply trim_trimmed.
Qed.

(** X5: a text of 801 to 1000 characters gives two chunks: the whole text
    trimmed, and then again its tail from index 800 on, trimmed. *)
Theorem tail_chunk_repeated (text : jsstring) :
  chunkSize - overlap < length text <= chunkSize ->
  chunkText text = [trim text; trim (skipn 800 text)].
Proof.
  intros [Lo Hi]. unfold chunkSize, overlap in *. rewrite chunkText_windows. unfold windows.
  assert (exists n, List.length text = S (S n)) as [n ->]
    by (exists (List.length text - 2)%nat; unfold length in *; lia).
  assert (forall s, 0 <= s -> next_start text s = s + 800) as Next.
  { intros s Hs. unfold next_start.
    destruct (loop_body_cases text {| startIndex := s; chunks := [] |})
      as [(F & _)|(_ & ->)]; cbn [startIndex] in *;
      unfold chunkSize, overlap in *; lia. }
  cbn [windows_from]. destruct (Z.ltb_spec 0 (length text)); [|lia].
  unfold end_of. rewrite !Next by lia.
  destruct (Z.ltb_spec (0 + 800) (length text)); [|lia].
  rewrite windows_from_past by lia.
  cbn [map]. unfold chunk_of, overlap. cbn [fst snd]. f_equal; [|f_equal].
  - rewrite slice_whole by lia. reflexivity.
  - rewrite slice_to_end by lia. reflexivity.
Qed.

Lemma tail_chunk_repeated_witness :
  chunkSize - overlap < length (Samples.letters 900) <= chunkSize /\
  chunkText (Samples.letters 900) =
    [trim (Samples.letters 900); trim (skipn 800 (Samples.letters 900))].
Proof.
  assert (chunkSize - overlap < length (Samples.letters 900) <= chunkSize) as H
    by (unfold length, chunkSize, overlap, Samples.letters; rewrite repeat_length; lia).
  split; [exact H|]. apply (tail_chunk_repeated (Samples.letters 900)). exact H.
Defined.

(** X6: in a text without ['.'], ['?'] and ['!'] the windows stand on a
    grid: one window of [chunkSize] indices every [chunkSize - overlap] = 800
    indices, [ceil (n / 800)] windows for [n] characters, and the chunks are
    their trimmed slices. *)
Theorem plain_text_grid (text : jsstring) :
  no_sentence_end text ->
  chunkText text = map (chunk_of text) (grid text).
Proof.
  intros N. rewrite chunkText_windows. f_equal. unfold windows, grid.
  rewrite (windows_from_plain text _ N) by (unfold length; lia).
  rewrite Z.sub_0_r. apply map_ext. intros i. f_equal.
Qed.

Lemma plain_text_grid_witness :
  no_sentence_end (Samples.letters 2400) /\
  chunkText (Samples.letters 2400) =
    map (chunk_of (Samples.letters 2400)) (grid (Samples.letters 2400)).
Proof.
  assert (no_sentence_end (Samples.letters 2400)) as N.
  { intros j c E. unfold char_at in E. destruct (j <? 0); [discriminate|].
    apply nth_error_In, repeat_spec in E. subst c. reflexivity. }
  split; [exact N|]. apply (plain_text_grid (Samples.letters 2400)). exact N.
Defined.

Lemma trimStart_blank (s : jsstring) :
  Forall (fun c => isWhiteSpace c = true) s -> trimStart s = [].
Proof.
  induction 1 as [|c r W _ IH]; cbn [trimStart]; [reflexivity|]. rewrite W. exact IH.
Qed.

Lemma Forall_part {A} (P : A -> Prop) (n m : nat) (l : list A) :
  Forall P l -> Forall P (firstn n (skipn m l)).
Proof.
  intros H. rewrite <- (firstn_skipn m l) in H. apply Forall_app in H.
  destruct H as [_ H].
  rewrite <- (firstn_skipn n (skipn m l)) in H. apply Forall_app in H.
  destruct H as [H _]. exact H.
Qed.

Lemma slice_blank (s : jsstring) (start end_ : Z) :
  Forall (fun c => isWhiteSpace c = true) s ->
  Forall (fun c => isWhiteSpace c = true) (slice s start end_).
Proof. intros H. unfold slice; cbv zeta. apply Forall_part, H. Qed.

(** X7: a text made of white space only gives nothing but empty chunks,
    one for each of its windows. *)
Theorem blank_text_empty_chunks (text : jsstring) :
  Forall (fun c => isWhiteSpace c = true) text ->
  Forall (fun chunk => chunk = []) (chunkText text).
Proof.
  intros B. rewrite chunkText_windows. apply Forall_forall. intros c H.
  apply in_map_iff in H. destruct H as (w & <- & _).
  unfold chunk_of, trim. rewrite trimStart_blank by (apply slice_blank, B). reflexivity.
Qed.

Lemma blank_text_empty_chunks_witness :
  Forall (fun c => isWhiteSpace c = true) (lit "   ") /\
  Forall (fun chunk => chunk = []) (chunkText (lit "   ")) /\
  chunkText (lit "   ") = [[]].
Proof.
  assert (Forall (fun c => isWhiteSpace c = true) (lit "   ")) as B
    by (repeat constructor).
  split; [exact B|]. split; [|reflexivity].
  apply (blank_text_empty_chunks (lit "   ")). exact B.
Defined.

End ChunkerMore.

(** ** More about the server and the pipelines *)

Module PipelineMore.

Import Chunker Pipeline PipelineFacts Samples Server.

#[local] Open Scope async_scope.

(** X8: the module goes on loading exactly when each of the three required
    variables is set to a non-empty string; otherwise the process exits
    with code 1 after logging a line that names the missing ones. *)
Theorem startup_requires_all (env : Env) :
  (startup env = GoesOn <->
   forall v, In v requiredEnvVars -> exists s, env v = Some s /\ s <> []) /\
  (startup env <> GoesOn ->
   startup env =
     Exit 1 (lit "Missing required environment variables: "
             ++ join (lit ", ") (missingEnvVars env)) /\
   forall v, In v (missingEnvVars env) <->
             In v requiredEnvVars /\ (env v = None \/ env v = Some [])).
Proof.
  assert (forall v, falsy (env v) = true <-> env v = None \/ env v = Some []) as F.
  { intros v. unfold falsy. destruct (env v) as [[|c s]|]; cbn; split;
      try tauto; try discriminate; intros [H|H]; discriminate. }
  assert (forall v, In v (missingEnvVars env) <->
                    In v requiredEnvVars /\ (env v = None \/ env v = Some [])) as M.
  { intros v. unfold missingEnvVars. rewrite filter_In, F. tauto. }
  unfold startup. split.
  - destruct (missingEnvVars env) as [|m ms] eqn:E; cbn [List.length].
    + change (0 <? Z.of_nat 0) with false. cbv iota. split; [intros _|reflexivity].
      intros v Hv. destruct (env v) as [[|c s]|] eqn:Ev.
      * exfalso. apply (proj2 (M v)); auto.
      * exists (c :: s). split; [reflexivity|discriminate].
      * exfalso. apply (proj2 (M v)); auto.
    + destruct (Z.ltb_spec 0 (Z.of_nat (S (List.length ms)))); [|lia].
      split; [discriminate|]. intros A. exfalso.
      destruct (proj1 (M m) (or_introl eq_refl)) as [Hm Hf].
      destruct (A m Hm) as (s & Es & Ns). destruct Hf as [Hf|Hf]; congruence.
  - destruct (0 <? Z.of_nat (List.length (missingEnvVars env)));
      [intros _; split; [reflexivity|exact M]|congruence].
Qed.

Lemma startup_requires_all_witness :
  startup full_env = GoesOn /\
  startup (fun _ => None) =
    Exit 1 (lit "Missing required environment variables: OPENAI_API_KEY, NEXT_PUBLIC_SUPABASE_URL, NEXT_PUBLIC_SUPABASE_ANON_KEY").
Proof.
  split.
  - apply (proj1 (startup_requires_all full_env)). intros v _.
    exists (lit "x"). split; [reflexivity|discriminate].
  - reflexivity.
Defined.

(** X9: the upload filter and the parser agree on the extensions.  A file
    the filter lets through is read by [parseFile] (its first call is the
    read of the uploaded file); a file the filter refuses would make
    [parseFile] throw ["Error parsing file: Unsupported file type"]
    without touching anything. *)
Theorem filter_agrees_with_parser (srv : Services) (file : File) (w : World) :
  (fileFilter srv file = inr true ->
   exists w' r e es,
     parseFile srv file w = (w', r) /\
     w' = after w (e :: es) /\
     (e = ReadFile (path file) \/ e = ReadFileUtf8 (path file))) /\
  (forall err,
     fileFilter srv file = inl err ->
     message err = lit "Invalid file type. Only PDF, DOCX, and TXT files are allowed." /\
     parseFile srv file w =
       (w, inl (mkError (lit "Error parsing file: Unsupported file type")))).
Proof.
  unfold fileFilter, parseFile, Array_includes, allowedTypes; cbv zeta. cbn [existsb].
  unfold try_catch, bind, await, rethrow, throw.
  set (ext := extname_toLowerCase srv (originalname file)).
  destruct (list_eq_dec N.eq_dec ext (lit ".pdf")) as [Ep|Np];
    destruct (list_eq_dec N.eq_dec (lit ".pdf") ext) as [Ep'|Np']; try congruence;
    cbn [orb].
  { split; [intros _|discriminate].
    destruct (fs_readFile srv w (path file)) as [rerr|data].
    - eexists _, _, _, []. split; [reflexivity|]. split; [reflexivity|]. left; reflexivity.
    - destruct (pdf_text srv _ data);
        (eexists _, _, _, [_]; split; [reflexivity|];
         split; [rewrite after_two; reflexivity|left; reflexivity]). }
  destruct (list_eq_dec N.eq_dec ext (lit ".docx")) as [Ed|Nd];
    destruct (list_eq_dec N.eq_dec (lit ".docx") ext) as [Ed'|Nd']; try congruence;
    cbn [orb].
  { split; [intros _|discriminate].
    destruct (fs_readFile srv w (path file)) as [rerr|data].
    - eexists _, _, _, []. split; [reflexivity|]. split; [reflexivity|]. left; reflexivity.
    - destruct (docx_value srv _ data);
        (eexists _, _, _, [_]; split; [reflexivity|];
         split; [rewrite after_two; reflexivity|left; reflexivity]). }
  destruct (list_eq_dec N.eq_dec ext (lit ".txt")) as [Et|Nt];
    destruct (list_eq_dec N.eq_dec (lit ".txt") ext) as [Et'|Nt']; try congruence;
    cbn [orb].
  { split; [intros _|discriminate].
    destruct (fs_readFile_utf8 srv w (path file));
      (eexists _, _, _, []; split; [reflexivity|]; split; [reflexivity|right; reflexivity]). }
  split; [discriminate|]. intros err H. injection H as <-. split; reflexivity.
Qed.

Lemma filter_agrees_with_parser_witness :
  fileFilter all_fine notes_txt = inr true /\
  (exists w' r e es,
     parseFile all_fine notes_txt empty_world = (w', r) /\
     w' = after empty_world (e :: es) /\
     (e = ReadFile (path notes_txt) \/ e = ReadFileUtf8 (path notes_txt))) /\
  fileFilter exe_services notes_txt =
    inl (mkError (lit "Invalid file type. Only PDF, DOCX, and TXT files are allowed.")) /\
  parseFile exe_services notes_txt empty_world =
    (empty_world, inl (mkError (lit "Error parsing file: Unsupported file type"))).
Proof.
  split; [reflexivity|]. split.
  - exact (proj1 (filter_agrees_with_parser all_fine notes_txt empty_world) eq_refl).
  - split; [reflexivity|].
    exact (proj2 (proj2 (filter_agrees_with_parser exe_services notes_txt empty_world)
                    _ eq_refl)).
Defined.

Lemma nth_error_mapi_from {A B} (f : A -> nat -> B) (l : list A) :
  forall k i, nth_error (mapi_from k f l) i =
              option_map (fun x => f x (k + i)%nat) (nth_error l i).
Proof.
  induction l as [|x r IH]; intros k [|i]; cbn; try reflexivity.
  - rewrite Nat.add_0_r. reflexivity.
  - rewrite IH. rewrite Nat.add_succ_r. reflexivity.
Qed.

Lemma length_mapi_from {A B} (f : A -> nat -> B) (l : list A) :
  forall k, List.length (mapi_from k f l) = List.length l.
Proof. induction l as [|x r IH]; intros k; cbn; [reflexivity|]. rewrite IH. reflexivity. Qed.

Lemma chunk_index_mapi_from (doc : document_row) (embs : list embedding)
  (chunks : list jsstring) :
  forall k,
    map chunk_index
      (mapi_from k
         (fun content index =>
            {| document_id := id doc; chunk_index := Z.of_nat index;
               content := content; chunk_embedding := nth_error embs index |})
         chunks) =
    map Z.of_nat (seq k (List.length chunks)).
Proof.
  induction chunks as [|c r IH]; intros k; cbn; [reflexivity|]. rewrite IH. reflexivity.
Qed.

Lemma NoDup_map_of_nat (l : list nat) : NoDup l -> NoDup (map Z.of_nat l).
Proof.
  induction 1 as [|x l Hx _ IH]; cbn; constructor; [|exact IH].
  intros H. apply in_map_iff in H. destruct H as (y & E & Hy).
  apply Nat2Z.inj in E. subst y. exact (Hx Hy).
Qed.

(** X11: when there is one embedding per chunk, the rows built for the
    chunk insert are one per chunk, in order: the row at index [i] carries
    the document's id, [chunk_index] [i], the chunk at [i] and the embedding
    at [i] (never an undefined one), and no two rows share a [chunk_index],
    as the unique constraint of the table asks. *)
Theorem chunk_rows_indexed (doc : document_row) (chunks : list jsstring)
  (embs : list embedding) :
  List.length embs = List.length chunks ->
  List.length (chunksToInsert doc chunks embs) = List.length chunks /\
  (forall i content,
     nth_error chunks i = Some content ->
     exists e,
       nth_error embs i = Some e /\
       nth_error (chunksToInsert doc chunks embs) i =
         Some {| document_id := id doc; chunk_index := Z.of_nat i;
                 content := content; chunk_embedding := Some e |}) /\
  NoDup (map chunk_index (chunksToInsert doc chunks embs)).
Proof.
  intros L. unfold chunksToInsert, mapi. split; [apply length_mapi_from|]. split.
  - intros i content Hi.
    assert (nth_error embs i <> None) as N.
    { apply nth_error_Some. rewrite L. apply nth_error_Some. congruence. }
    destruct (nth_error embs i) as [e|] eqn:E; [|congruence].
    exists e. split; [reflexivity|].
    rewrite nth_error_mapi_from, Hi. cbn. rewrite E. reflexivity.
  - rewrite chunk_index_mapi_from.
    apply NoDup_map_of_nat, seq_NoDup.
Qed.

Lemma chunk_rows_indexed_witness :
  List.length [[1 # 2; 1 # 4]] = List.length [lit "Slack bots answer questions."] /\
  chunksToInsert stored_document [lit "Slack bots answer questions."] [[1 # 2; 1 # 4]]
    = stored_rows /\
  NoDup (map chunk_index
           (chunksToInsert stored_document [lit "Slack bots answer questions."]
              [[1 # 2; 1 # 4]])).
Proof.
  split; [reflexivity|]. split; [reflexivity|].
  exact (proj2 (proj2 (chunk_rows_indexed stored_document
                         [lit "Slack bots answer questions."] [[1 # 2; 1 # 4]] eq_refl))).
Defined.

(** X12: a 200 from the upload handler means that everything was done: the
    file was parsed, one embedding was computed per chunk, the document row
    and one row per chunk are in the tables, the last call was the removal of
    the uploaded file, and [chunks_count] is the number of chunks. *)
Theorem upload_200_means_stored (srv : Services) (file : File) (w w' : World)
  (r : Response) :
  upload srv (Some file) w = (w', inr r) ->
  status r = 200 ->
  exists w1 text w2 embs doc es,
    parseFile srv file w = (w1, inr text) /\
    getEmbeddings srv (chunkText text) w1 = (w2, inr embs) /\
    List.length embs = List.length (chunkText text) /\
    documents w' = documents w ++ [doc] /\
    chunks_table w' = chunks_table w ++ chunksToInsert doc (chunkText text) embs /\
    trace w' = trace w ++ es ++ [Unlink (path file)] /\
    body_field "chunks_count" r = Some (JInt (Z.of_nat (List.length (chunkText text)))) /\
    body_field "document" r =
      Some (JObject [prop "id" (JString (id doc));
                     prop "filename" (JString (doc_filename doc));
                     prop "original_name" (JString (original_name doc));
                     prop "upload_date" (JString (upload_date doc))]).
Proof.
  unfold upload, try_catch.
  destruct (upload_pipeline srv file w) as [wp [e|rp]] eqn:E.
  { unfold bind, unlink, await, console_error, perform, ret; cbv beta.
    destruct (fs_unlink srv _ (path file)); intros H; injection H as _ <-; discriminate. }
  intros H S. injection H as -> ->. clear S. revert E.
  unfold upload_pipeline. unfold bind at 1.
  destruct (parseFile srv file w) as [w1 [e|text]] eqn:P; [discriminate|].
  destruct (only_logs_parseFile srv file _ _ _ P) as [es1 ->].
  unfold bind at 1.
  destruct (getEmbeddings srv (chunkText text) (after w es1)) as [w2 [e|embs]] eqn:G;
    [discriminate|].
  destruct (only_logs_getEmbeddings srv _ _ _ _ G) as [es2 ->].
  assert (List.length embs = List.length (chunkText text)) as L.
  { revert G. unfold getEmbeddings, try_catch.
    destruct (getEmbeddings_loop srv (chunkText text) [] (after w es1))
      as [w2 [e|l]] eqn:G; [discriminate|].
    intros R; injection R as _ <-.
    apply getEmbeddings_loop_returns in G. destruct G as (_ & new & -> & L & _). exact L. }
  unfold bind, insert_document, insert_chunks, rethrow, throw, unlink, await, ret; cbv beta.
  destruct (documents_insert srv _ _ _ _) as [derr|doc]; cbv beta iota; [discriminate|].
  destruct (chunks_insert srv _ _) as [cerr|]; cbv beta iota; [discriminate|].
  destruct (fs_unlink srv _ (path file)) as [uerr|]; cbv beta iota; [discriminate|].
  intros H. injection H as <- <-.
  exists (after w es1), text, (after (after w es1) es2), embs, doc.
  exists (es1 ++ es2 ++
          [InsertDocument (filename file) (originalname file)
             (date_toISOString srv (after (after w es1) es2));
           InsertChunks (chunksToInsert doc (chunkText text) embs)]).
  repeat split; try reflexivity; try assumption.
  cbn [trace log after]. rewrite <- !app_assoc. reflexivity.
Qed.

Lemma upload_200_means_stored_witness :
  exists w1 text w2 embs doc es,
    parseFile all_fine notes_txt empty_world = (w1, inr text) /\
    getEmbeddings all_fine (chunkText text) w1 = (w2, inr embs) /\
    List.length embs = List.length (chunkText text) /\
    documents (fst (upload all_fine (Some notes_txt) empty_world)) =
      documents empty_world ++ [doc] /\
    chunks_table (fst (upload all_fine (Some notes_txt) empty_world)) =
      chunks_table empty_world ++ chunksToInsert doc (chunkText text) embs /\
    trace (fst (upload all_fine (Some notes_txt) empty_world)) =
      trace empty_world ++ es ++ [Unlink (path notes_txt)] /\
    body_field "chunks_count"
      (res_json (JObject
         [prop "message" (JString (lit "File processed and stored successfully"));
          prop "document" (JObject
             [prop "id" (JString (id stored_document));
              prop "filename" (JString (doc_filename stored_document));
              prop "original_name" (JString (original_name stored_document));
              prop "upload_date" (JString (upload_date stored_document))]);
          prop "chunks_count" (JInt 1)])) =
      Some (JInt (Z.of_nat (List.length (chunkText text)))) /\
    body_field "document"
      (res_json (JObject
         [prop "message" (JString (lit "File processed and stored successfully"));
          prop "document" (JObject
             [prop "id" (JString (id stored_document));
              prop "filename" (JString (doc_filename stored_document));
              prop "original_name" (JString (original_name stored_document));
              prop "upload_date" (JString (upload_date stored_document))]);
          prop "chunks_count" (JInt 1)])) =
      Some (JObject [prop "id" (JString (id doc));
                     prop "filename" (JString (doc_filename doc));
                     prop "original_name" (JString (original_name doc));
                     prop "upload_date" (JString (upload_date doc))]).
Proof.
  exact (upload_200_means_stored all_fine notes_txt empty_world _ _ eq_refl eq_refl).
Defined.

(** X13: an upload whose file parses to the empty text calls the embedding
    service not at all; when the two inserts and the removal succeed it is
    answered 200 with [chunks_count] 0, and a document row without any chunk
    row has been stored. *)
Theorem empty_file_stores_document (srv : Services) (file : File) (w w1 : World)
  (doc : document_row) :
  parseFile srv file w = (w1, inr []) ->
  documents_insert srv w1 (filename file) (originalname file)
    (date_toISOString srv w1) = inr doc ->
  chunks_insert srv (document_inserted w1 file (date_toISOString srv w1) doc) [] = None ->
  fs_unlink srv
    (chunks_inserted (document_inserted w1 file (date_toISOString srv w1) doc) [])
    (path file) = None ->
  exists w',
    upload srv (Some file) w =
      (w', inr {| status := 200;
                  body := JObject
                    [prop "message" (JString (lit "File processed and stored successfully"));
                     prop "document" (JObject
                        [prop "id" (JString (id doc));
                         prop "filename" (JString (doc_filename doc));
                         prop "original_name" (JString (original_name doc));
                         prop "upload_date" (JString (upload_date doc))]);
                     prop "chunks_count" (JInt 0)] |}) /\
    documents w' = documents w ++ [doc] /\
    chunks_table w' = chunks_table w /\
    trace w' =
      trace w1 ++ [InsertDocument (filename file) (originalname file)
                     (date_toISOString srv w1);
                   InsertChunks [];
                   Unlink (path file)].
Proof.
  intros P D C U.
  destruct (PipelineSpec.upload_from_store srv file w w1 w1 [] [] P eq_refl) as [[Td Tc] ->].
  unfold try_catch, bind, insert_document, insert_chunks, rethrow, throw, unlink, await,
    console_error, perform, ret; cbv beta.
  rewrite D; cbv beta iota.
  change (chunksToInsert doc (chunkText []) []) with (@nil chunk_row).
  change {| documents := documents (log (InsertDocument (filename file) (originalname file)
                                          (date_toISOString srv w1)) w1) ++ [doc];
            chunks_table := chunks_table (log (InsertDocument (filename file)
                                          (originalname file) (date_toISOString srv w1)) w1);
            trace := trace (log (InsertDocument (filename file) (originalname file)
                                   (date_toISOString srv w1)) w1) |}
    with (document_inserted w1 file (date_toISOString srv w1) doc).
  rewrite C; cbv beta iota.
  change {| documents :=
              documents (log (InsertChunks [])
                           (document_inserted w1 file (date_toISOString srv w1) doc));
            chunks_table :=
              chunks_table (log (InsertChunks [])
                              (document_inserted w1 file (date_toISOString srv w1) doc))
              ++ [];
            trace :=
              trace (log (InsertChunks [])
                       (document_inserted w1 file (date_toISOString srv w1) doc)) |}
    with (chunks_inserted (document_inserted w1 file (date_toISOString srv w1) doc) []).
  rewrite U; cbv beta iota.
  eexists. split; [reflexivity|]. cbn. rewrite app_nil_r, <- !app_assoc.
  repeat split; congruence.
Qed.

Lemma empty_file_stores_document_witness :
  exists w',
    upload empty_file_services (Some notes_txt) empty_world =
      (w', inr {| status := 200;
                  body := JObject
                    [prop "message" (JString (lit "File processed and stored successfully"));
                     prop "document" (JObject
                        [prop "id" (JString (id stored_document));
                         prop "filename" (JString (doc_filename stored_document));
                         prop "original_name" (JString (original_name stored_document));
                         prop "upload_date" (JString (upload_date stored_document))]);
                     prop "chunks_count" (JInt 0)] |}) /\
    documents w' = documents empty_world ++ [stored_document] /\
    chunks_table w' = chunks_table empty_world /\
    trace w' =
      trace (after empty_world [ReadFileUtf8 (path notes_txt)]) ++
      [InsertDocument (filename notes_txt) (originalname notes_txt)
         (date_toISOString empty_file_services
            (after empty_world [ReadFileUtf8 (path notes_txt)]));
       InsertChunks [];
       Unlink (path notes_txt)].
Proof.
  exact (empty_file_stores_document empty_file_services notes_txt empty_world
           (after empty_world [ReadFileUtf8 (path notes_txt)]) stored_document
           eq_refl eq_refl eq_refl eq_refl).
Defined.

(** What the [try] block of the question handler returns: 400 for a missing
    question, with nothing done, and 200 otherwise. *)
Lemma ask_pipeline_returns (srv : Services) (question : option jsstring)
  (w w1 : World) (r : Response) :
  ask_pipeline srv question w = (w1, inr r) ->
  (falsy question = true /\ w1 = w /\
   r = {| status := 400;
          body := JObject [prop "error" (JString (lit "Question is required"))] |}) \/
  (falsy question = false /\ status r = 200).
Proof.
  unfold ask_pipeline. destruct question as [q|]; [destruct (falsy (Some q)) eqn:F|];
    try (intros E; injection E as <- <-; left; repeat split; reflexivity).
  unfold bind. destruct (getEmbedding srv q w) as [w2 [e|emb]]; [discriminate|].
  destruct (getSimilarChunks srv emb default_limit w2) as [w3 [e|found]]; [discriminate|].
  destruct (no_chunks found); [intros E; injection E as _ <-; right; split; reflexivity|].
  destruct (generateResponse srv q (rows_of found) w3) as [w4 [e|answer]]; [discriminate|].
  intros E; injection E as _ <-; right; split; reflexivity.
Qed.

(** X14: the question handler always answers.  The status is 400 exactly
    when the question is missing or empty, and then no call has been made;
    it is 500 exactly when something inside the [try] block threw, and then
    the error has been logged and its message is the [error] of the body;
    otherwise it is 200. *)
Theorem ask_always_answers (srv : Services) (question : option jsstring) (w : World) :
  exists w' r,
    ask srv question w = (w', inr r) /\
    (status r = 200 \/ status r = 400 \/ status r = 500) /\
    (status r = 400 <-> falsy question = true) /\
    (falsy question = true -> w' = w) /\
    (status r = 500 <->
     exists w1 error,
       ask_pipeline srv question w = (w1, inl error) /\
       w' = after w1 [ConsoleError (message error)] /\
       body_field "error" r = Some (JString (message error))).
Proof.
  unfold ask, try_catch.
  destruct (ask_pipeline srv question w) as [w1 [e|r]] eqn:E.
  - eexists _, _. split; [reflexivity|]. cbn [status res_status_json].
    assert (falsy question = false) as F.
    { revert E. unfold ask_pipeline.
      destruct question as [q|]; [destruct (falsy (Some q))|]; try discriminate.
      reflexivity. }
    rewrite F. repeat split; try lia; try discriminate; auto.
    intros _. exists w1, e. repeat split.
  - exists w1, r. split; [reflexivity|].
    destruct (ask_pipeline_returns _ _ _ _ _ E) as [(F & -> & ->)|[F S]].
    + rewrite F. cbn [status]. repeat split; try lia; try discriminate; auto.
      intros (w2 & error & H & _). discriminate.
    + rewrite F, S. repeat split; try lia; try discriminate; auto.
      intros (w2 & error & H & _). discriminate.
Qed.

(** X15: when the embedding call, the search and the completion call all
    succeed and the search finds something, the question handler answers
    200 with the completion trimmed and, for each chunk found and in the
    order the search gave them, its content and its similarity; it has made
    exactly these three calls. *)
Theorem ask_answers_with_contexts (srv : Services) (q : jsstring) (w : World)
  (emb : embedding) (found : list match_row) (completion : jsstring) :
  truthy q = true ->
  embeddings_create srv w q = inr emb ->
  rpc_match_chunks srv (after w [embed_event q]) emb default_limit = inr (Some found) ->
  found <> [] ->
  chat_completions_create srv
    (after w [embed_event q; RpcMatchChunks emb default_limit])
    (completion_of q found) = inr completion ->
  ask srv (Some q) w =
    (after w [embed_event q; RpcMatchChunks emb default_limit;
              ChatCompletionsCreate (completion_of q found)],
     inr {| status := 200;
            body := JObject
              [prop "answer" (JString (trim completion));
               prop "chunks"
                 (JArray (map (fun chunk =>
                            JObject [prop "content" (JString (match_content chunk));
                                     prop "similarity" (JNumber (similarity chunk))])
                          found))] |}).
Proof.
  intros T E Hs N C. rewrite after_one in Hs. rewrite after_two in C.
  unfold ask, ask_pipeline, falsy. rewrite T. cbn [negb].
  unfold try_catch, bind, getEmbedding, getSimilarChunks, generateResponse,
    openai_embedding, try_catch, bind, await, rethrow, throw, ret.
  rewrite E. unfold embed_event in *. rewrite Hs.
  destruct found as [|m ms]; [congruence|]. cbn [no_chunks List.length rows_of].
  destruct (Z.eqb_spec (Z.of_nat (S (List.length ms))) 0); [lia|].
  cbn [rows_of] in C. rewrite C. unfold after, log. cbn. rewrite <- !app_assoc. reflexivity.
Qed.

Lemma ask_answers_with_contexts_witness :
  ask all_fine (Some (lit "hi")) empty_world =
    (after empty_world
       [embed_event (lit "hi"); RpcMatchChunks [1 # 2; 1 # 4] default_limit;
        ChatCompletionsCreate
          (completion_of (lit "hi")
             [mkMatch (lit "c-1") (lit "Slack bots answer questions.") (lit "doc-1") 0 (9 # 10)])],
     inr {| status := 200;
            body := JObject
              [prop "answer" (JString (trim (lit " Yes. ")));
               prop "chunks"
                 (JArray (map (fun chunk =>
                            JObject [prop "content" (JString (match_content chunk));
                                     prop "similarity" (JNumber (similarity chunk))])
                          [mkMatch (lit "c-1") (lit "Slack bots answer questions.")
                                   (lit "doc-1") 0 (9 # 10)]))] |}).
Proof.
  apply (ask_answers_with_contexts all_fine (lit "hi") empty_world [1 # 2; 1 # 4]
           [mkMatch (lit "c-1") (lit "Slack bots answer questions.") (lit "doc-1") 0 (9 # 10)]
           (lit " Yes. ")); try reflexivity. discriminate.
Defined.

(** X16: the Slack handler is the question handler in another dress: for
    the same non-empty question in the same world, the two [try] blocks make
    the same calls; when the one of [/api/ask] returns, the Slack one returns
    an [in_channel] message whose text is that answer, and when it throws,
    the Slack one throws the same error. *)
Theorem slack_follows_ask (srv : Services) (t : jsstring) (w : World) :
  truthy t = true ->
  (forall w1 r,
     ask_pipeline srv (Some t) w = (w1, inr r) ->
     exists answer,
       body_field "answer" r = Some (JString answer) /\
       slack_pipeline srv (Some t) w =
         (w1, inr {| status := 200;
                     body := JObject [prop "response_type" (JString (lit "in_channel"));
                                      prop "text" (JString answer)] |})) /\
  (forall w1 error,
     ask_pipeline srv (Some t) w = (w1, inl error) ->
     slack_pipeline srv (Some t) w = (w1, inl error)).
Proof.
  intros T. unfold ask_pipeline, slack_pipeline, falsy. rewrite T. cbn [negb].
  unfold bind.
  destruct (getEmbedding srv t w) as [w2 [e|emb]].
  { split; [discriminate|]. intros w1 error H. exact H. }
  destruct (getSimilarChunks srv emb default_limit w2) as [w3 [e|found]].
  { split; [discriminate|]. intros w1 error H. exact H. }
  destruct (no_chunks found).
  { split; [|discriminate]. intros w1 r H. injection H as <- <-.
    exists no_information. split; reflexivity. }
  destruct (generateResponse srv t (rows_of found) w3) as [w4 [e|answer]].
  { split; [discriminate|]. intros w1 error H. exact H. }
  split; [|discriminate]. intros w1 r H. injection H as <- <-.
  exists answer. split; reflexivity.
Qed.

Lemma slack_follows_ask_witness :
  truthy (lit "hi") = true /\
  exists answer,
    body_field "answer"
      {| status := 200;
         body := JObject [prop "answer" (JString no_information);
                          prop "chunks" (JArray [])] |} = Some (JString answer) /\
    slack_pipeline nothing_stored (Some (lit "hi")) empty_world =
      (after empty_world [embed_event (lit "hi"); RpcMatchChunks [1 # 2; 1 # 4] default_limit],
       inr {| status := 200;
              body := JObject [prop "response_type" (JString (lit "in_channel"));
                               prop "text" (JString answer)] |}).
Proof.
  split; [reflexivity|].
  exact (proj1 (slack_follows_ask nothing_stored (lit "hi") empty_world eq_refl) _ _ eq_refl).
Defined.

(** *** The labels of the errors *)

Lemma rethrow_labels {A} (m : M A) (prefix : string) (w w1 : World) (e : Error) :
  try_catch m (rethrow prefix) w = (w1, inl e) ->
  startsWith (message e) (lit prefix).
Proof.
  unfold try_catch, rethrow, throw. destruct (m w) as [w2 [e0|a]]; [|discriminate].
  intros H. injection H as _ <-. exists (message e0). reflexivity.
Qed.

(** X17: every error that leaves the [try] block of the question handler,
    and so every message of a 500 from [/api/ask] and every ["Error: ..."]
    of the Slack handler, begins with the label of the stage that failed:
    the embedding, the similarity search or the completion. *)
Theorem ask_errors_are_labelled (srv : Services) (question : option jsstring)
  (w w1 : World) (error : Error) :
  ask_pipeline srv question w = (w1, inl error) ->
  startsWith (message error) (lit "Error generating embedding: ") \/
  startsWith (message error) (lit "Error finding similar chunks: ") \/
  startsWith (message error) (lit "Error generating GPT response: ").
Proof.
  unfold ask_pipeline. destruct question as [q|]; [destruct (falsy (Some q))|];
    try discriminate.
  unfold bind. destruct (getEmbedding srv q w) as [w2 [e|emb]] eqn:E.
  { intros H. injection H as _ <-. left. eapply rethrow_labels, E. }
  destruct (getSimilarChunks srv emb default_limit w2) as [w3 [e|found]] eqn:S.
  { intros H. injection H as _ <-. right; left. eapply rethrow_labels, S. }
  destruct (no_chunks found); [discriminate|].
  destruct (generateResponse srv q (rows_of found) w3) as [w4 [e|answer]] eqn:G;
    [|discriminate].
  intros H. injection H as _ <-. right; right. eapply rethrow_labels, G.
Qed.

Lemma ask_errors_are_labelled_witness :
  startsWith (lit "Error finding similar chunks: function match_chunks does not exist")
             (lit "Error generating embedding: ") \/
  startsWith (lit "Error finding similar chunks: function match_chunks does not exist")
             (lit "Error finding similar chunks: ") \/
  startsWith (lit "Error finding similar chunks: function match_chunks does not exist")
             (lit "Error generating GPT response: ").
Proof.
  exact (ask_errors_are_labelled (services true true true true false true)
           (Some (lit "hi")) empty_world
           (after empty_world [embed_event (lit "hi"); RpcMatchChunks [1 # 2; 1 # 4] default_limit])
           (mkError (lit "Error finding similar chunks: function match_chunks does not exist"))
           eq_refl).
Defined.

(** X18: the error the upload handler answers with a 500 begins with the
    label of the stage that failed (parsing, embeddings, document insert,
    chunk insert), with one exception: the error of a failed removal of the
    uploaded file is passed on as it is. *)
Theorem upload_errors_are_labelled (srv : Services) (file : File) (w w1 : World)
  (error : Error) :
  upload_pipeline srv file w = (w1, inl error) ->
  startsWith (message error) (lit "Error parsing file: ") \/
  startsWith (message error) (lit "Error generating embeddings: ") \/
  startsWith (message error) (lit "Error inserting document: ") \/
  startsWith (message error) (lit "Error inserting chunks: ") \/
  exists wu, fs_unlink srv wu (path file) = Some error.
Proof.
  unfold upload_pipeline. unfold bind at 1.
  destruct (parseFile srv file w) as [w2 [e|text]] eqn:P.
  { intros H. injection H as _ <-. left. eapply rethrow_labels, P. }
  unfold bind at 1.
  destruct (getEmbeddings srv (chunkText text) w2) as [w3 [e|embs]] eqn:G.
  { intros H. injection H as _ <-. right; left. eapply rethrow_labels, G. }
  unfold bind, insert_document, insert_chunks, rethrow, throw, unlink, await, ret; cbv beta.
  destruct (documents_insert srv _ _ _ _) as [derr|doc]; cbv beta iota.
  { intros H. injection H as _ <-. right; right; left. eexists. reflexivity. }
  destruct (chunks_insert srv _ _) as [cerr|]; cbv beta iota.
  { intros H. injection H as _ <-. right; right; right; left. eexists. reflexivity. }
  destruct (fs_unlink srv _ (path file)) as [uerr|] eqn:U; cbv beta iota; [|discriminate].
  intros H. injection H as _ <-. right; right; right; right. eexists. exact U.
Qed.

Lemma upload_errors_are_labelled_witness :
  startsWith (lit "Error inserting chunks: expected 1536 dimensions, not 2")
             (lit "Error parsing file: ") \/
  startsWith (lit "Error inserting chunks: expected 1536 dimensions, not 2")
             (lit "Error generating embeddings: ") \/
  startsWith (lit "Error inserting chunks: expected 1536 dimensions, not 2")
             (lit "Error inserting document: ") \/
  startsWith (lit "Error inserting chunks: expected 1536 dimensions, not 2")
             (lit "Error inserting chunks: ") \/
  exists wu, fs_unlink chunk_insert_fails wu (path notes_txt) =
             Some (mkError (lit "Error inserting chunks: expected 1536 dimensions, not 2")).
Proof.
  exact (upload_errors_are_labelled chunk_insert_fails notes_txt empty_world
           (fst (upload_pipeline chunk_insert_fails notes_txt empty_world))
           (mkError (lit "Error inserting chunks: expected 1536 dimensions, not 2"))
           eq_refl).
Defined.

(** *** The prompt *)

Lemma includes_self (s : jsstring) : includes s s.
Proof. exists [], []. rewrite app_nil_r. reflexivity. Qed.

Lemma includes_right (s t sub : jsstring) : includes t sub -> includes (s ++ t) sub.
Proof. intros (b & a & ->). exists (s ++ b), a. rewrite <- app_assoc. reflexivity. Qed.

Lemma includes_left (s t sub : jsstring) : includes s sub -> includes (s ++ t) sub.
Proof.
  intros (b & a & ->). exists b, (a ++ t). rewrite <- !app_assoc. reflexivity.
Qed.

Lemma includes_join (sep : jsstring) (l : list jsstring) :
  forall i x, nth_error l i = Some x -> includes (join sep l) x.
Proof.
  induction l as [|y r IH]; intros [|i] x; cbn [nth_error join]; try discriminate.
  - intros H. injection H as ->. destruct r; [apply includes_self|].
    apply includes_left, includes_self.
  - intros H. destruct r as [|z r]; [destruct i; discriminate|].
    apply includes_right, includes_right. exact (IH i x H).
Qed.

(** X19: the prompt sent to the completion service holds every retrieved
    context, each as ["[rank] content"] with ranks counted from 1 in the
    order of retrieval, and the question after ["Question: "]. *)
Theorem prompt_lists_contexts (question : jsstring) (contexts : list match_row) :
  (forall i ctx,
     nth_error contexts i = Some ctx ->
     includes (prompt question contexts)
              (lit "[" ++ toString (S i) ++ lit "] " ++ match_content ctx)) /\
  includes (prompt question contexts) (lit "Question: " ++ question) /\
  startsWith (prompt question contexts) (lit "You are an assistant.").
Proof.
  unfold prompt. split; [|split].
  - intros i ctx H. do 8 apply includes_right. apply includes_left.
    apply (includes_join _ _ i). unfold mapi.
    rewrite nth_error_mapi_from, H. cbn [option_map].
    rewrite Nat.add_0_l, Nat.add_1_r. reflexivity.
  - do 11 apply includes_right. rewrite app_assoc. apply includes_left, includes_self.
  - eexists. cbn [lit list_ascii_of_string map app]. reflexivity.
Qed.

(** What the [try] block of the upload handler returns is a 200. *)
Lemma upload_pipeline_returns (srv : Services) (file : File) (w w1 : World)
  (r : Response) :
  upload_pipeline srv file w = (w1, inr r) -> status r = 200.
Proof.
  unfold upload_pipeline. unfold bind at 1.
  destruct (parseFile srv file w) as [w2 [e|text]]; [discriminate|].
  unfold bind at 1.
  destruct (getEmbeddings srv (chunkText text) w2) as [w3 [e|embs]]; [discriminate|].
  unfold bind, insert_document, insert_chunks, rethrow, throw, unlink, await, ret; cbv beta.
  destruct (documents_insert srv _ _ _ _) as [derr|doc]; cbv beta iota; [discriminate|].
  destruct (chunks_insert srv _ _) as [cerr|]; cbv beta iota; [discriminate|].
  destruct (fs_unlink srv _ (path file)) as [uerr|]; cbv beta iota; [discriminate|].
  intros H. injection H as _ <-. reflexivity.
Qed.

(** X20: the upload handler always answers.  The status is 400 exactly when
    the request carries no file, and then nothing has been done; it is 500
    exactly when something inside the [try] block threw, and then the
    message of that error is the [error] of the body; otherwise it is
    200. *)
Theorem upload_always_answers (srv : Services) (req_file : option File) (w : World) :
  exists w' r,
    upload srv req_file w = (w', inr r) /\
    (status r = 200 \/ status r = 400 \/ status r = 500) /\
    (status r = 400 <-> req_file = None) /\
    (req_file = None -> w' = w) /\
    (status r = 500 <->
     exists file w1 error,
       req_file = Some file /\
       upload_pipeline srv file w = (w1, inl error) /\
       body_field "error" r = Some (JString (message error))).
Proof.
  unfold upload. destruct req_file as [file|].
  - unfold try_catch. destruct (upload_pipeline srv file w) as [w1 [e|r]] eqn:E.
    + unfold bind, unlink, await, console_error, perform, ret; cbv beta.
      destruct (fs_unlink srv w1 (path file));
        (eexists _, _; split; [reflexivity|]; cbn [status res_status_json];
         repeat split; try lia; try discriminate; auto;
         intros _; exists file, w1, e; repeat split; exact E).
    + exists w1, r. split; [reflexivity|]. rewrite (upload_pipeline_returns _ _ _ _ _ E).
      repeat split; try lia; try discriminate; auto.
      intros (f & w2 & error & F & H & _). injection F as <-. congruence.
  - eexists _, _. split; [reflexivity|]. cbn [status res_status_json].
    repeat split; try lia; try discriminate; auto.
    intros (f & w2 & error & F & _). discriminate.
Qed.

(** X21: the Slack handler posts to the channel exactly when a question was
    given and its [try] block returned; a missing or empty question is
    answered with the [ephemeral] reminder, and then no call has been
    made. *)
Theorem slack_posts_in_channel (srv : Services) (text : option jsstring) (w : World) :
  exists w' r,
    slack_ask srv text w = (w', inr r) /\
    (body_field "response_type" r = Some (JString (lit "in_channel")) \/
     body_field "response_type" r = Some (JString (lit "ephemeral"))) /\
    (body_field "response_type" r = Some (JString (lit "in_channel")) <->
     falsy text = false /\ exists r', slack_pipeline srv text w = (w', inr r')) /\
    (falsy text = true ->
     w' = w /\
     body_field "text" r =
       Some (JString (lit "Please provide a question after the slash command."))).
Proof.
  unfold slack_ask, try_catch.
  destruct (slack_pipeline srv text w) as [w1 [e|r]] eqn:E.
  - assert (falsy text = false) as F.
    { revert E. unfold slack_pipeline.
      destruct text as [t|]; [destruct (falsy (Some t))|]; try discriminate.
      reflexivity. }
    unfold bind, console_error, perform, ret. eexists _, _. split; [reflexivity|].
    rewrite F. split; [right; reflexivity|]. split; [|discriminate].
    split; [discriminate|]. intros (_ & r' & H). discriminate.
  - exists w1, r. split; [reflexivity|]. revert E. unfold slack_pipeline.
    destruct text as [t|]; [destruct (falsy (Some t)) eqn:F|].
    + intros H. injection H as <- <-. split; [right; reflexivity|].
      split; [|intros _; split; reflexivity].
      split; [discriminate|]. intros [H _]. discriminate.
    + unfold bind. destruct (getEmbedding srv t w) as [w2 [e|emb]]; [discriminate|].
      destruct (getSimilarChunks srv emb default_limit w2) as [w3 [e|found]];
        [discriminate|].
      destruct (no_chunks found).
      * intros H. injection H as <- <-. split; [left; reflexivity|].
        split; [|discriminate]. split; [|reflexivity]. intros _. split; [reflexivity|].
        eexists. reflexivity.
      * destruct (generateResponse srv t (rows_of found) w3) as [w4 [e|answer]];
          [discriminate|].
        intros H. injection H as <- <-. split; [left; reflexivity|].
        split; [|discriminate]. split; [|reflexivity]. intros _. split; [reflexivity|].
        eexists. reflexivity.
    + intros H. injection H as <- <-. split; [right; reflexivity|].
      split; [|intros _; split; reflexivity].
      split; [discriminate|]. intros [H _]. discriminate.
Qed.




End PipelineMore.
